(** * prgi: progress indicators for the terminal

    A shallow embedding of [prgi.c] / [prgi.h] and the properties of its
    sampling engine, escape-aware text utilities, bar layout and formatters.

    Conventions of the embedding.
    - [int] and [long int] are [Z] with two's-complement wrap-around written
      out ([wrap_int], [wrap_long]); the target is LP64 (x86-64 Linux, as the
      [ioctl]/[pthread] calls of the source assume).
    - [float] is IEEE 754 binary32 and [double] binary64, both as
      [spec_float] with round-to-nearest-even ([SpecFloat] of the standard
      library), every operation rounded to its own format.
    - A conversion from a floating value to an integer type whose result is
      not representable is undefined in C; the embedding takes the value the
      x86-64 conversion instructions deliver (the most negative integer).
    - A pointer into a NUL-terminated string is the suffix it points to.
    - The clock and the terminal size are inputs of the operations that read
      them; the bytes written to [prgi.output] are accumulated in [tty]. *)

From Stdlib Require Import ZArith Lia Bool List Ascii String.
From Stdlib Require Import Floats.SpecFloat.
Import ListNotations.

Local Open Scope string_scope.
Local Open Scope Z_scope.

(* ================================================================== *)
(** * Machine integers *)

Definition INT_MIN : Z := - 2 ^ 31.
Definition INT_MAX : Z := 2 ^ 31 - 1.
Definition LONG_MIN : Z := - 2 ^ 63.
Definition LONG_MAX : Z := 2 ^ 63 - 1.

Definition wrap_int (z : Z) : Z := (z + 2 ^ 31) mod 2 ^ 32 - 2 ^ 31.
Definition wrap_long (z : Z) : Z := (z + 2 ^ 63) mod 2 ^ 64 - 2 ^ 63.

Definition in_int (z : Z) : Prop := INT_MIN <= z <= INT_MAX.
Definition in_long (z : Z) : Prop := LONG_MIN <= z <= LONG_MAX.

(** C's [/] and [%] on integers truncate towards zero. *)
Definition c_div (a b : Z) : Z := Z.quot a b.
Definition c_mod (a b : Z) : Z := Z.rem a b.

(* ================================================================== *)
(** * Floating point: binary32 and binary64 *)

Definition float := spec_float.   (* C [float]  : prec 24, emax 128  *)
Definition double := spec_float.  (* C [double] : prec 53, emax 1024 *)

Definition f32_add : float -> float -> float := SFadd 24 128.
Definition f32_sub : float -> float -> float := SFsub 24 128.
Definition f32_mul : float -> float -> float := SFmul 24 128.
Definition f32_div : float -> float -> float := SFdiv 24 128.
Definition f64_mul : double -> double -> double := SFmul 53 1024.
Definition f64_div : double -> double -> double := SFdiv 53 1024.

(** [x < y], [x > y]: false as soon as one side is a NaN. *)
Definition f_lt (x y : spec_float) : bool := SFltb x y.
Definition f_gt (x y : spec_float) : bool := SFltb y x.

Definition NAN : float := S754_nan.
Definition f_zero : float := S754_zero false.

Definition isfinite (x : spec_float) : bool :=
  match x with
  | S754_zero _ | S754_finite _ _ _ => true
  | S754_infinity _ | S754_nan => false
  end.

(** Integer to floating conversions, rounded to nearest even. *)
Definition float_of_Z (z : Z) : float := binary_normalize 24 128 z 0 false.
Definition double_of_Z (z : Z) : double := binary_normalize 53 1024 z 0 false.

(** [float] to [double] is exact; the mantissa is brought to 53 bits. *)
Definition double_of_float (x : float) : double :=
  match x with
  | S754_finite s m e => binary_round 53 1024 s m e
  | _ => x
  end.

Definition float_of_double (x : double) : float :=
  match x with
  | S754_finite s m e => binary_round 24 128 s m e
  | _ => x
  end.

(** Truncation towards zero of a finite value; [None] for infinities and
    NaN. *)
Definition f_trunc (x : spec_float) : option Z :=
  match x with
  | S754_zero _ => Some 0
  | S754_finite s m e =>
      let a := if 0 <=? e then Z.shiftl (Zpos m) e
               else Z.shiftr (Zpos m) (- e) in
      Some (if s then - a else a)
  | S754_infinity _ | S754_nan => None
  end.

(** [(int)x] and [(long)x]. *)
Definition int_of_float (x : spec_float) : Z :=
  match f_trunc x with
  | Some z => if (INT_MIN <=? z) && (z <=? INT_MAX) then z else INT_MIN
  | None => INT_MIN
  end.

Definition long_of_float (x : spec_float) : Z :=
  match f_trunc x with
  | Some z => if (LONG_MIN <=? z) && (z <=? LONG_MAX) then z else LONG_MIN
  | None => LONG_MIN
  end.

(** Decimal constants of the source, correctly rounded. *)
Definition f32_half : float := S754_finite false 8388608 (-24).      (* 0.5f  *)
Definition f32_1Em9 : float := S754_finite false 9007199 (-53).      (* 1E-9f *)
Definition f64_0_8 : double :=
  S754_finite false 7205759403792794 (-53).                          (* 0.8   *)
Definition f32_0_2 : float := S754_finite false 13421773 (-26).      (* .2    *)

(* ================================================================== *)
(** * C strings

    A [char const *] into a NUL-terminated string is modelled by the suffix
    it points to: [deref p] is [*p] (the terminator once the suffix is empty)
    and [next p] is [p + 1]. *)

Definition NUL : ascii := "000"%char.
Definition ESC : ascii := "027"%char.   (* '\e' *)
Definition LF : ascii := "010"%char.    (* '\n' *)
Definition CR : ascii := "013"%char.    (* '\r' *)

Definition deref (p : string) : ascii :=
  match p with
  | EmptyString => NUL
  | String c _ => c
  end.

Definition next (p : string) : string :=
  match p with
  | EmptyString => EmptyString
  | String _ t => t
  end.

(** A string of the embedding is the content of a C string when it holds no
    NUL. *)
Fixpoint no_nul (s : string) : bool :=
  match s with
  | EmptyString => true
  | String c t => negb (Ascii.eqb c NUL) && no_nul t
  end.

(** The content of a buffer as a C string: the bytes before the first
    NUL. *)
Fixpoint c_str (s : string) : string :=
  match s with
  | EmptyString => EmptyString
  | String c t => if Ascii.eqb c NUL then EmptyString else String c (c_str t)
  end.

Definition strlen (s : string) : Z := Z.of_nat (String.length s).

(** The first [k] bytes of [s]: what [printf("%.*s", k, s)] writes for
    [k >= 0]. *)
Fixpoint prefix (k : nat) (s : string) : string :=
  match k, s with
  | S k', String c t => String c (prefix k' t)
  | _, _ => EmptyString
  end.

Fixpoint skipn (k : nat) (s : string) : string :=
  match k, s with
  | S k', String _ t => skipn k' t
  | _, _ => s
  end.

(** [printf("%.*s", k, s)]: a negative precision is taken as if it were
    omitted. *)
Definition fmt_prec_s (k : Z) (s : string) : string :=
  if k <? 0 then s else prefix (Z.to_nat k) s.

Fixpoint repeat_char (c : ascii) (n : nat) : string :=
  match n with
  | O => EmptyString
  | S n' => String c (repeat_char c n')
  end.

(* ================================================================== *)
(** * Escape-aware text utilities *)

(** [lo <= c && c <= hi] on character codes.  The codes compared against
    are below 0x80, so the signedness of [char] does not matter. *)
Definition in_range (lo hi : N) (c : ascii) : bool :=
  let n := N_of_ascii c in (N.leb lo n && N.leb n hi)%bool.

(** [while(lo <= *p && *p <= hi) ++p;] *)
Fixpoint skip_range (lo hi : N) (p : string) : string :=
  match p with
  | String c t => if in_range lo hi c then skip_range lo hi t else p
  | EmptyString => p
  end.

(** [if(lo <= *p && *p <= hi) ++p;] *)
Definition skip_one (lo hi : N) (p : string) : string :=
  if in_range lo hi (deref p) then next p else p.

(** The body of the loop of [esc_skip], entered with [*p == '\e']. *)
Definition esc_skip_body (p : string) : string :=
  let p := next p in
  if Ascii.eqb (deref p) "["%char then
    let p := next p in
    let p := skip_range 48 63 p in                     (* parameter bytes *)
    let p := skip_range 32 47 p in                     (* intermediate bytes *)
    skip_one 64 126 p                                  (* final byte *)
  else p.

Fixpoint esc_skip_loop (fuel : nat) (p : string) : string :=
  match fuel with
  | O => p
  | S fuel' =>
      if Ascii.eqb (deref p) ESC
      then esc_skip_loop fuel' (esc_skip_body p)
      else p
  end.

(** Every iteration consumes at least the escape character, so the length
    of the string bounds the number of iterations. *)
Definition esc_skip (p : string) : string :=
  esc_skip_loop (String.length p) p.

Fixpoint esc_strlen_loop (fuel : nat) (p : string) (n : Z) : Z :=
  match fuel with
  | O => n
  | S fuel' =>
      let p := esc_skip p in
      if Ascii.eqb (deref p) NUL then n
      else esc_strlen_loop fuel' (next p) (n + 1)
  end.

Definition esc_strlen (p : string) : Z :=
  esc_strlen_loop (S (String.length p)) p 0.

(** [p - s] for a pointer [p] into [s]. *)
Definition ptr_diff (s p : string) : Z := strlen s - strlen p.

Fixpoint esc_rawlen_loop (fuel : nat) (s p : string) (n l : Z) : Z :=
  match fuel with
  | O => ptr_diff s p
  | S fuel' =>
      let p := esc_skip p in
      if (n =? l) || Ascii.eqb (deref p) NUL then ptr_diff s p
      else esc_rawlen_loop fuel' s (next p) (n + 1) l
  end.

Definition esc_rawlen (s : string) (l : Z) : Z :=
  esc_rawlen_loop (S (String.length s)) s s 0 l.

(* ================================================================== *)
(** * The conversions of [printf] the source uses

    [snprintf] is the C library's; the conversions below follow the C
    standard (7.21.6.1): [%d], [%02d], [%.*f], [%.2E], [%.2G], with the
    decimal digits obtained from the exact binary value, rounded to nearest,
    ties to even. *)

Fixpoint digits_loop (fuel : nat) (n : Z) (acc : string) : string :=
  match fuel with
  | O => acc
  | S fuel' =>
      let acc := String (ascii_of_N (48 + Z.to_N (n mod 10))) acc in
      if n / 10 =? 0 then acc else digits_loop fuel' (n / 10) acc
  end.

(** The decimal digits of [n >= 0]. *)
Definition fmt_u (n : Z) : string :=
  digits_loop (S (Z.to_nat (Z.log2 n))) n EmptyString.

Definition pad0 (w : nat) (s : string) : string :=
  repeat_char "0" (w - String.length s) ++ s.

Definition fmt_sign (neg : bool) : string :=
  if neg then "-" else EmptyString.

(** [%d] *)
Definition fmt_d (z : Z) : string := fmt_sign (z <? 0) ++ fmt_u (Z.abs z).

(** [%02d] *)
Definition fmt_02d (z : Z) : string :=
  if z <? 0 then "-" ++ pad0 1 (fmt_u (Z.abs z)) else pad0 2 (fmt_u z).

(** The magnitude of a finite float as a fraction of integers. *)
Definition f_frac (m : positive) (e : Z) : Z * Z :=
  if 0 <=? e then (Zpos m * 2 ^ e, 1) else (Zpos m, 2 ^ (- e)).

(** [num / den * 10 ^ k] as a fraction. *)
Definition scale10 (num den k : Z) : Z * Z :=
  if 0 <=? k then (num * 10 ^ k, den) else (num, den * 10 ^ (- k)).

Definition round_half_even (nd : Z * Z) : Z :=
  let (num, den) := nd in
  let q := num / den in
  match (2 * (num mod den)) ?= den with
  | Lt => q
  | Gt => q + 1
  | Eq => if Z.even q then q else q + 1
  end.

(** [q] is the value scaled by [10 ^ p]; the digits with the point placed. *)
Definition fmt_fixed (p : nat) (q : Z) : string :=
  let ds := pad0 (S p) (fmt_u q) in
  let k := (String.length ds - p)%nat in
  match p with
  | O => ds
  | _ => prefix k ds ++ "." ++ skipn k ds
  end.

(** [%.*f] with precision argument [p]; a negative one is taken as
    omitted, which is precision 6.  [spec_float] keeps no sign for a NaN:
    the one NaN that reaches a [%f] in this program is the quotient
    [0 / 0] of [prgi.progress], whose sign bit is set on x86-64 and which
    is written [-nan]. *)
Definition fmt_f (p : Z) (x : double) : string :=
  let p := if p <? 0 then 6%nat else Z.to_nat p in
  match x with
  | S754_nan => "-nan"
  | S754_infinity s => fmt_sign s ++ "inf"
  | S754_zero s => fmt_sign s ++ fmt_fixed p 0
  | S754_finite s m e =>
      let (num, den) := f_frac m e in
      fmt_sign s
      ++ fmt_fixed p (round_half_even (scale10 num den (Z.of_nat p)))
  end.

(** The decimal exponent [X] of [num / den > 0]:
    [10 ^ X <= num / den < 10 ^ (X + 1)]. *)
Fixpoint exp10_loop (fuel : nat) (num den X : Z) : Z :=
  match fuel with
  | O => X
  | S fuel' =>
      let (a, b) := scale10 num den (- X) in
      if a <? b then exp10_loop fuel' num den (X - 1)
      else if 10 * b <=? a then exp10_loop fuel' num den (X + 1)
      else X
  end.

Definition exp10 (num den : Z) : Z :=
  exp10_loop 8 num den ((Z.log2 num - Z.log2 den) * 30103 / 100000).

(** The [p + 1] significant digits (as an integer) and the decimal exponent
    of the scientific notation of [num / den > 0]. *)
Definition sci_digits (p : nat) (num den : Z) : Z * Z :=
  let X := exp10 num den in
  let q := round_half_even (scale10 num den (Z.of_nat p - X)) in
  if 10 ^ Z.of_nat (S p) <=? q
  then (round_half_even (scale10 num den (Z.of_nat p - (X + 1))), X + 1)
  else (q, X).

Definition fmt_exp (X : Z) : string :=
  "E" ++ (if X <? 0 then "-" else "+") ++ pad0 2 (fmt_u (Z.abs X)).

(** [%.<p>E] *)
Definition fmt_E (p : nat) (x : double) : string :=
  match x with
  | S754_nan => "NAN"
  | S754_infinity s => fmt_sign s ++ "INF"
  | S754_zero s => fmt_sign s ++ fmt_fixed p 0 ++ fmt_exp 0
  | S754_finite s m e =>
      let (num, den) := f_frac m e in
      let (q, X) := sci_digits p num den in
      fmt_sign s ++ fmt_fixed p q ++ fmt_exp X
  end.

(** Removal of the trailing zeros of a fraction, and of the point when no
    fraction is left ([%G] without the [#] flag). *)
Fixpoint strip_zeros (s : string) : string :=
  match s with
  | EmptyString => EmptyString
  | String c t =>
      match strip_zeros t with
      | EmptyString =>
          if Ascii.eqb c "0" || Ascii.eqb c "." then EmptyString
          else String c EmptyString
      | t' => String c t'
      end
  end.

Definition strip_fraction (p : nat) (s : string) : string :=
  match p with
  | O => s
  | _ =>
      let k := (String.length s - S p)%nat in
      prefix k s ++ strip_zeros (skipn k s)
  end.

(** [%.<P>G] for [P >= 1]: style [E] with precision [P - 1] when the
    exponent [X] is below -4 or at least [P], style [f] with precision
    [P - 1 - X] otherwise. *)
Definition fmt_G (P : nat) (x : double) : string :=
  match x with
  | S754_nan => "NAN"
  | S754_infinity s => fmt_sign s ++ "INF"
  | S754_zero s => fmt_sign s ++ "0"
  | S754_finite s m e =>
      let (num, den) := f_frac m e in
      let (q, X) := sci_digits (P - 1) num den in
      if (X <? -4) || (Z.of_nat P <=? X)
      then fmt_sign s ++ strip_fraction (P - 1) (fmt_fixed (P - 1) q)
           ++ fmt_exp X
      else
        let p := Z.to_nat (Z.of_nat P - 1 - X) in
        fmt_sign s
        ++ strip_fraction p
             (fmt_fixed p (round_half_even (scale10 num den (Z.of_nat p))))
  end.

(** [snprintf(buf, size, ...)] keeps at most [size - 1] bytes; [sprn]
    returns the buffer. *)
Definition sprn (size : Z) (s : string) : string :=
  prefix (Z.to_nat (size - 1)) s.

(* ================================================================== *)
(** * Definitions of the source *)

Definition MAXLINELEN : Z := 256.            (* PRGI_MAXLINELEN *)
Definition MAXBARLEN : Z := MAXLINELEN.      (* PRGI_MAXBARLEN  *)
Definition EXTRASIZE : Z := 9.               (* PRGI_EXTRASIZE  *)
Definition LINEBUFSIZE : Z := MAXLINELEN + EXTRASIZE + 1.
Definition BARBUFSIZE : Z := MAXBARLEN + EXTRASIZE + 1.

(** [float myround(float x) { return (int)(x + (float)0.5); }] *)
Definition myround (x : float) : float :=
  float_of_Z (int_of_float (f32_add x f32_half)).

(** [overwrite_centered(dest, size, src)]: the content of [dest]
    afterwards. *)
Definition overwrite_centered (dest : string) (size : Z) (src : string)
  : string :=
  let dest_len := strlen dest in
  let src_len := strlen src in
  if src_len <? dest_len then
    let off := Z.to_nat (c_div (dest_len - src_len) 2) in
    prefix off dest ++ src
    ++ skipn (off + String.length src) dest
  else
    let src_len := if size <=? src_len then size - 1 else src_len in
    prefix (Z.to_nat src_len) src.

(** [struct timespec], and the reading of the monotonic clock relative to
    [start]. *)
Record timespec := mkTimespec { tv_sec : Z; tv_nsec : Z }.

Definition timef (start t : timespec) : float :=
  f32_add (float_of_Z (wrap_long (tv_sec t - tv_sec start)))
          (f32_mul f32_1Em9
                   (float_of_Z (wrap_long (tv_nsec t - tv_nsec start)))).

(** [divmod(&n, d)]: the new [*n] and the returned remainder. *)
Definition divmod (n d : Z) : Z * Z := (c_div n d, c_mod n d).

(* ================================================================== *)
(** * State *)

(** [struct prgi_t]; [prgi_output] tells whether [prgi.output] is
    non-NULL. *)
Record prgi_t := mkPrgi {
  prgi_output : bool;
  prgi_update_interval : float;       (* prgi.update *)
  prgi_lock_on_update : bool;
  prgi_width : Z;
  prgi_progress : float;
  prgi_elapsed : float;
  prgi_remaining : float;
  prgi_rate : float;
  prgi_mean_rate : float
}.

(** [struct global_state]; [global_lock] tells whether the mutex is held. *)
Record global_state := mkGlobal {
  global_start : timespec;
  global_lock : bool;
  global_total : Z;
  global_count : Z;
  global_last_count : Z;
  global_last_time : float;
  global_width : Z;
  global_printed_lines : Z;
  global_expand_count : Z
}.

(** [struct prgi_thread_state_], one per thread. *)
Record prgi_thread_state_ := mkThread {
  thread_total : Z;
  thread_count : Z;
  thread_last_count : Z;
  thread_mark : Z;
  thread_last_time : float
}.

(** [struct bar_state]. *)
Record bar_state := mkBar {
  bar_fill0 : ascii;                  (* bar.fill[0] *)
  bar_fill1 : ascii;                  (* bar.fill[1] *)
  bar_txt : string;
  bar_expand : bool
}.

(** The data shared by all threads, and the bytes written so far to
    [prgi.output]. *)
Record shared := mkShared {
  prgi : prgi_t;
  global : global_state;
  bar : bar_state;
  tty : string
}.

Definition set_prgi (f : prgi_t -> prgi_t) (w : shared) : shared :=
  mkShared (f (prgi w)) (global w) (bar w) (tty w).
Definition set_global (f : global_state -> global_state) (w : shared)
  : shared :=
  mkShared (prgi w) (f (global w)) (bar w) (tty w).
Definition set_bar (f : bar_state -> bar_state) (w : shared) : shared :=
  mkShared (prgi w) (global w) (f (bar w)) (tty w).

(** [fputs], [fputc], [fprintf] on [prgi.output]. *)
Definition fputs (s : string) (w : shared) : shared :=
  mkShared (prgi w) (global w) (bar w) (tty w ++ s).

(** The static initial values: [prgi] with its default configuration,
    everything else zero. *)
Definition prgi_static : prgi_t :=
  mkPrgi false f32_0_2 false 0 f_zero f_zero f_zero f_zero f_zero.
Definition global_static : global_state :=
  mkGlobal (mkTimespec 0 0) false 0 0 0 f_zero 0 0 0.
Definition thread_static : prgi_thread_state_ := mkThread 0 0 0 0 f_zero.
Definition shared_static : shared :=
  mkShared prgi_static global_static (mkBar NUL NUL EmptyString false)
    EmptyString.

(* ================================================================== *)
(** * Locking *)

Definition with_lock (b : bool) (g : global_state) : global_state :=
  mkGlobal (global_start g) b (global_total g) (global_count g)
    (global_last_count g) (global_last_time g) (global_width g)
    (global_printed_lines g) (global_expand_count g).

Definition prgi_lock (w : shared) : shared := set_global (with_lock true) w.
Definition prgi_unlock (w : shared) : shared := set_global (with_lock false) w.

(* ================================================================== *)
(** * Basic output functions *)

Definition valid_terminal (w : shared) : bool :=
  prgi_output (prgi w) && (3 <=? prgi_width (prgi w)).

Definition with_printed_lines (n : Z) (g : global_state) : global_state :=
  mkGlobal (global_start g) (global_lock g) (global_total g) (global_count g)
    (global_last_count g) (global_last_time g) (global_width g)
    n (global_expand_count g).

(** [while(global.printed_lines) { fputs("\e[A\e[K"); --global.printed_lines; }]
    The counter is never negative: it starts at zero, is incremented by
    [prgi_puts] and is run down to zero here. *)
Fixpoint clear_loop (fuel : nat) (w : shared) : shared :=
  match fuel with
  | O => w
  | S fuel' =>
      if global_printed_lines (global w) =? 0 then w
      else
        let w := fputs (String ESC "[A" ++ String ESC "[K") w in
        let w := set_global
                   (with_printed_lines
                      (wrap_int (global_printed_lines (global w) - 1))) w in
        clear_loop fuel' w
  end.

Definition prgi_clear (w : shared) : shared :=
  if global_printed_lines (global w) =? 0 then w
  else if negb (valid_terminal w) then
    set_global (with_printed_lines 0) w
  else
    let w := fputs (String CR (String ESC "[K")) w in
    let w := set_global
               (with_printed_lines
                  (wrap_int (global_printed_lines (global w) - 1))) w in
    clear_loop (Z.to_nat (global_printed_lines (global w))) w.

(** The line [prgi_puts] writes for [s]: [s] itself, or its truncation
    followed by the marker and the reset sequence. *)
Definition puts_line (width : Z) (s : string) : string :=
  if esc_strlen s <=? width then s
  else fmt_prec_s (esc_rawlen s (width - 3)) s ++ ">>>" ++ String ESC "[0m".

Definition prgi_puts (s : string) (w : shared) : shared :=
  if negb (valid_terminal w) then w
  else
    let w := if global_printed_lines (global w) =? 0 then w
             else fputs (String LF EmptyString) w in
    let w := fputs (puts_line (global_width (global w)) s) w in
    let w := fputs (String ESC "[" ++ fmt_d (prgi_width (prgi w)) ++ "G") w in
    set_global
      (with_printed_lines (wrap_int (global_printed_lines (global w) + 1))) w.

(* ================================================================== *)
(** * Initialization *)

Definition with_total (n : Z) (g : global_state) : global_state :=
  mkGlobal (global_start g) (global_lock g) n (global_count g)
    (global_last_count g) (global_last_time g) (global_width g)
    (global_printed_lines g) (global_expand_count g).

(** [prgi_init_thread(total)]: the thread's own state and the shared one. *)
Definition prgi_init_thread (total : Z) (w : shared)
  : prgi_thread_state_ * shared :=
  let th := mkThread total 0 0 0 f_zero in
  let w := prgi_lock w in
  let w := set_global
             (with_total (wrap_long (global_total (global w) + total))) w in
  (th, prgi_unlock w).

(** [prgi_init(total)], called when the clock reads [clk]. *)
Definition prgi_init (clk : timespec) (total : Z) (w : shared)
  : prgi_thread_state_ * shared :=
  let p := prgi w in
  let p := mkPrgi true (prgi_update_interval p) (prgi_lock_on_update p)
             (-1) f_zero f_zero NAN NAN NAN in
  let g := mkGlobal clk (global_lock (global w)) 0 0 0 f_zero (-1) 0 0 in
  prgi_init_thread total (mkShared p g (bar w) (tty w)).

(* ================================================================== *)
(** * [prgi_update__] and [prgi_update] *)

(** The mark re-estimation of [prgi_update__]:
    [thread.mark += (prgi.update * thread_delta) / (now - thread.last_time)]
    computed in [float] and converted back to [long], then the clamp to the
    total, and the thread's bookkeeping. *)
Definition update_mark (update now : float) (th : prgi_thread_state_)
  : prgi_thread_state_ :=
  let thread_delta := wrap_long (thread_count th - thread_last_count th) in
  let mark :=
    long_of_float
      (f32_add (float_of_Z (thread_mark th))
         (f32_div (f32_mul update (float_of_Z thread_delta))
                  (f32_sub now (thread_last_time th)))) in
  let mark :=
    if (thread_count th <? thread_total th) && (thread_total th <? mark)
    then thread_total th else mark in
  mkThread (thread_total th) (thread_count th) (thread_count th) mark now.

(** [ready = global_dt > 0.8 * prgi.update], in [double]. *)
Definition ready (update global_dt : float) : bool :=
  f_gt (double_of_float global_dt) (f64_mul f64_0_8 (double_of_float update)).

(** The decision of [prgi_update__] to publish, on the merged global
    count. *)
Definition publish (rdy : bool) (count thread_delta : Z)
  (th : prgi_thread_state_) : bool :=
  rdy || (count =? thread_delta) || (thread_count th =? thread_total th).

(** [prgi_update__()], run by the thread whose state is [th] when the clock
    reads [clk] and [termwidth(prgi.output)] would return [tw]. *)
Definition prgi_update__ (clk : timespec) (tw : Z)
  (th : prgi_thread_state_) (w : shared)
  : bool * prgi_thread_state_ * shared :=
  let thread_delta := wrap_long (thread_count th - thread_last_count th) in
  let now := timef (global_start (global w)) clk in
  let w := prgi_lock w in
  let th' := update_mark (prgi_update_interval (prgi w)) now th in
  let g := global w in
  let count := wrap_long (global_count g + thread_delta) in
  let global_dt := f32_sub now (global_last_time g) in
  let rdy := ready (prgi_update_interval (prgi w)) global_dt in
  if negb (publish rdy count thread_delta th) then
    let g := mkGlobal (global_start g) (global_lock g) (global_total g) count
               (global_last_count g) (global_last_time g) (global_width g)
               (global_printed_lines g) (global_expand_count g) in
    (false, th', prgi_unlock (mkShared (prgi w) g (bar w) (tty w)))
  else
    let p := prgi w in
    let progress := f32_div (float_of_Z count) (float_of_Z (global_total g)) in
    let mean_rate := f32_div (float_of_Z count) now in
    let rate :=
      if rdy
      then f32_div (float_of_Z (wrap_long (count - global_last_count g)))
                   global_dt
      else prgi_rate p in
    let remaining :=
      f32_div (float_of_Z (wrap_long (global_total g - count))) rate in
    let p := mkPrgi (prgi_output p) (prgi_update_interval p)
               (prgi_lock_on_update p) tw progress now remaining rate
               mean_rate in
    let width :=
      if MAXLINELEN + 2 <=? tw then MAXLINELEN else wrap_int (tw - 2) in
    let g := mkGlobal (global_start g) (global_lock g) (global_total g) count
               count now width (global_printed_lines g) 0 in
    let w := prgi_clear (mkShared p g (bar w) (tty w)) in
    (true, th', if prgi_lock_on_update p then w else prgi_unlock w).

Definition with_count (n : Z) (th : prgi_thread_state_) : prgi_thread_state_ :=
  mkThread (thread_total th) n (thread_last_count th) (thread_mark th)
    (thread_last_time th).

(** [prgi_update(inc)]:
    [(prgi_thread_.count += inc) >= prgi_thread_.mark && prgi_update__()]. *)
Definition prgi_update (inc : Z) (clk : timespec) (tw : Z)
  (th : prgi_thread_state_) (w : shared)
  : bool * prgi_thread_state_ * shared :=
  let th := with_count (wrap_long (thread_count th + inc)) th in
  if thread_mark th <=? thread_count th
  then prgi_update__ clk tw th w
  else (false, th, w).

(* ================================================================== *)
(** * [prgi_bar], [prgi_bartxt] and [prgi_percent] *)

(** [bar_fill(buf, n, len)]: the content of [buf] afterwards.  [memset]
    with a negative length, or [n > len], is outside the function's
    contract: no result. *)
Definition bar_fill (b : bar_state) (n len : Z) : option string :=
  if (0 <=? n) && (n <=? len) && (len <=? MAXBARLEN) then
    Some (overwrite_centered
            (c_str (repeat_char (bar_fill0 b) (Z.to_nat n)
                    ++ repeat_char (bar_fill1 b) (Z.to_nat (len - n))))
            BARBUFSIZE (bar_txt b))
  else None.

(** The minimum and maximum bar lengths. *)
Definition bar_len (len : Z) : Z :=
  if len <? 10 then 10 else if MAXBARLEN <? len then MAXBARLEN else len.

(** The number of filled characters of a bar of (resolved) length [len]:
    [n = myround(len * prgi.progress); if(n > len) n = len;] *)
Definition bar_filled (len : Z) (progress : float) : Z :=
  let n := int_of_float (myround (f32_mul (float_of_Z len) progress)) in
  if len <? n then len else n.

Definition with_expand_count (n : Z) (g : global_state) : global_state :=
  mkGlobal (global_start g) (global_lock g) (global_total g) (global_count g)
    (global_last_count g) (global_last_time g) (global_width g)
    (global_printed_lines g) n.

Definition with_expand (e : bool) (b : bar_state) : bar_state :=
  mkBar (bar_fill0 b) (bar_fill1 b) (bar_txt b) e.

(** [bar_doit(len)]: the string returned and the shared state. *)
Definition bar_doit (len : Z) (w : shared) : option string * shared :=
  if len <=? 0 then
    let w := set_bar (with_expand true) w in
    let w := set_global
               (with_expand_count
                  (wrap_int (global_expand_count (global w) + 1))) w in
    (Some EmptyString, w)
  else
    let len := bar_len len in
    let n := bar_filled len (prgi_progress (prgi w)) in
    if negb (Ascii.eqb (bar_fill1 (bar w)) NUL) then
      (bar_fill (bar w) n len, w)
    else
      match bar_fill (bar w) len len with
      | Some aux =>
          if 0 <=? n then
            (Some (sprn BARBUFSIZE
                     (String ESC "[7m" ++ fmt_prec_s n aux
                      ++ String ESC "[0m" ++ skipn (Z.to_nat n) aux)), w)
          else (None, w)
      | None => (None, w)
      end.

(** [prgi_bar(len, fill)], with the two bytes read from [fill]. *)
Definition prgi_bar (len : Z) (fill0 fill1 : ascii) (w : shared)
  : option string * shared :=
  bar_doit len
    (set_bar (fun b => mkBar fill0 fill1 EmptyString (bar_expand b)) w).

(** [prgi_bartxt(len, fill, format, ...)], with [txt] the formatted text. *)
Definition prgi_bartxt (len : Z) (fill0 fill1 : ascii) (txt : string)
  (w : shared) : option string * shared :=
  bar_doit len
    (set_bar (fun b => mkBar fill0 fill1 (sprn BARBUFSIZE txt) (bar_expand b))
       w).

(** [prgi_percent()]: ["%.0f%%"] of [100 * prgi.progress], in a buffer of 5
    bytes. *)
Definition prgi_percent (w : shared) : string :=
  sprn 5
    (fmt_f 0
       (double_of_float (f32_mul (float_of_Z 100) (prgi_progress (prgi w))))
     ++ "%").

(* ================================================================== *)
(** * [prgi_remaining] and [prgi_elapsed] *)

Definition timehms (size : Z) (t : float) : string :=
  if negb (isfinite t) || f_lt t (float_of_Z 0) then sprn size "?"
  else if f_gt t (float_of_Z (7 * 24 * 60 * 60)) then
    sprn size (fmt_E 2 (double_of_float t) ++ "s")
  else
    let n := int_of_float t in
    if n <? 60 then sprn size (fmt_d n ++ "s")
    else
      let (n, r) := divmod n 60 in
      if n <? 60 then sprn size (fmt_d n ++ "m" ++ fmt_02d r ++ "s")
      else
        let (n, r) := divmod n 60 in
        if n <? 24 then sprn size (fmt_d n ++ "h" ++ fmt_02d r ++ "m")
        else
          let (n, r) := divmod n 24 in
          (* "%dd%d02h" *)
          sprn size (fmt_d n ++ "d" ++ fmt_d r ++ "02h").

Definition prgi_remaining_str (w : shared) : string :=
  timehms 32 (prgi_remaining (prgi w)).

Definition prgi_elapsed_str (w : shared) : string :=
  timehms 32 (prgi_elapsed (prgi w)).

(* ================================================================== *)
(** * [prgi_rate] and [prgi_mean_rate] *)

(** [x < 10 ? 2 : x < 100] *)
Definition dec3 (x : double) : Z :=
  if f_lt x (double_of_Z 10) then 2
  else if f_lt x (double_of_Z 100) then 1 else 0.

(** The table [pw] of [sipref]; [None] is the [NULL] prefix of the
    sentinel. *)
Definition pw : list (double * option string) :=
  [ (double_of_Z (10 ^ 3), Some "K"); (double_of_Z (10 ^ 6), Some "M");
    (double_of_Z (10 ^ 9), Some "G"); (double_of_Z (10 ^ 12), Some "T");
    (double_of_Z (10 ^ 15), Some "P"); (double_of_Z (10 ^ 18), Some "E");
    (double_of_Z (10 ^ 21), Some "Z"); (double_of_Z (10 ^ 24), Some "Y");
    (double_of_Z (10 ^ 27), Some "R"); (double_of_Z (10 ^ 30), Some "Q");
    (S754_zero false, None) ].

(** [for(i = 0; pw[i+1].p != NULL; ++i)] over the entries from [pw[i]] on:
    the entry [pw[i]] is used when [x < pw[i+1].v]. *)
Fixpoint sipref_loop (size : Z) (x : double)
  (tbl : list (double * option string)) : string :=
  match tbl with
  | (v, Some p) :: (((v', Some _) :: _) as tbl') =>
      if f_lt x v' then
        let x := f64_div x v in
        sprn size (fmt_f (dec3 x) x ++ p)
      else sipref_loop size x tbl'
  | _ => sprn size (fmt_G 2 x)
  end.

Definition sipref (size : Z) (x : double) : string :=
  if negb (isfinite x) || f_lt x (double_of_Z 0) then sprn size "?"
  else if f_lt x (double_of_Z 1000) then sprn size (fmt_f (dec3 x) x)
  else sipref_loop size x pw.

Definition prgi_rate_str (w : shared) : string :=
  sipref 32 (double_of_float (prgi_rate (prgi w))).

Definition prgi_mean_rate_str (w : shared) : string :=
  sipref 32 (double_of_float (prgi_mean_rate (prgi w))).

(* ================================================================== *)
(** * Runs

    The calls of one worker thread, each made against whatever the shared
    state is at that moment (other threads may have changed it in between),
    and the calls of a whole program, one thread-local state per thread. *)

Record update_call := mkCall {
  call_inc : Z;
  call_clk : timespec;
  call_tw : Z;
  call_shared : shared
}.

(** The thread's own state after its calls [cs] of [prgi_update]. *)
Fixpoint thread_run (cs : list update_call) (th : prgi_thread_state_)
  : prgi_thread_state_ :=
  match cs with
  | [] => th
  | c :: cs' =>
      thread_run cs'
        (snd (fst (prgi_update (call_inc c) (call_clk c) (call_tw c) th
                     (call_shared c))))
  end.

Definition sum_incs (cs : list update_call) : Z :=
  fold_right (fun c acc => call_inc c + acc) 0 cs.

Definition nonneg_incs (cs : list update_call) : Prop :=
  Forall (fun c => 0 <= call_inc c) cs.

(** The property of a thread's state that guarantees its last publish: while
    its count is below its total, its mark is not above the total. *)
Definition mark_ok (th : prgi_thread_state_) : Prop :=
  thread_count th < thread_total th -> thread_mark th <= thread_total th.

Inductive call :=
| Call_init_thread (t : nat) (total : Z)
| Call_update (t : nat) (inc : Z) (clk : timespec) (tw : Z)
| Call_puts (s : string)
| Call_clear
| Call_bar (len : Z) (fill0 fill1 : ascii)
| Call_unlock.

Record program_state := mkProgram {
  threads : nat -> prgi_thread_state_;
  shared_state : shared
}.

Definition set_thread (t : nat) (th : prgi_thread_state_)
  (ths : nat -> prgi_thread_state_) : nat -> prgi_thread_state_ :=
  fun t' => if Nat.eqb t' t then th else ths t'.

(** One call: whether it was a [prgi_update] that returned true, and the
    state afterwards. *)
Definition exec (c : call) (st : program_state) : bool * program_state :=
  match c with
  | Call_init_thread t total =>
      let (th, w) := prgi_init_thread total (shared_state st) in
      (false, mkProgram (set_thread t th (threads st)) w)
  | Call_update t inc clk tw =>
      let '(r, th, w) :=
        prgi_update inc clk tw (threads st t) (shared_state st) in
      (r, mkProgram (set_thread t th (threads st)) w)
  | Call_puts s =>
      (false, mkProgram (threads st) (prgi_puts s (shared_state st)))
  | Call_clear => (false, mkProgram (threads st) (prgi_clear (shared_state st)))
  | Call_bar len fill0 fill1 =>
      let w := snd (prgi_bar len fill0 fill1 (shared_state st)) in
      (false, mkProgram (threads st) w)
  | Call_unlock =>
      (false, mkProgram (threads st) (prgi_unlock (shared_state st)))
  end.

(** A sequence of calls: whether some [prgi_update] returned true, and the
    final state. *)
Fixpoint exec_all (cs : list call) (st : program_state)
  : bool * program_state :=
  match cs with
  | [] => (false, st)
  | c :: cs' =>
      let (r, st') := exec c st in
      let (r', st'') := exec_all cs' st' in
      (r || r', st'')
  end.

(** The program right after [prgi_init(total)] in thread 0. *)
Definition after_init (clk : timespec) (total : Z) (w : shared)
  : program_state :=
  let (th, w') := prgi_init clk total w in
  mkProgram (set_thread 0 th (fun _ => thread_static)) w'.

(* ================================================================== *)
(** * The escape recognizer as an automaton

    What the nested loops of [esc_skip] recognize, one character at a time:
    the state says where in an escape sequence the scan is, and a character
    is printable when it is counted by [esc_strlen].  The properties of the
    source's functions are proved through this reading of them. *)

Inductive esc_state := Ground | AfterEsc | Params | Inters.

(** The state after a character, and whether the character is printable. *)
Definition esc_step (st : esc_state) (c : ascii) : esc_state * bool :=
  if Ascii.eqb c ESC then (AfterEsc, false)
  else
    match st with
    | Ground => (Ground, true)
    | AfterEsc => if Ascii.eqb c "[" then (Params, false) else (Ground, true)
    | Params =>
        if in_range 48 63 c then (Params, false)
        else if in_range 32 47 c then (Inters, false)
        else if in_range 64 126 c then (Ground, false)
        else (Ground, true)
    | Inters =>
        if in_range 32 47 c then (Inters, false)
        else if in_range 64 126 c then (Ground, false)
        else (Ground, true)
    end.

(** The rest of the string from its first printable character on. *)
Fixpoint dfa_skip (st : esc_state) (s : string) : string :=
  match s with
  | EmptyString => EmptyString
  | String c t =>
      let (st', pr) := esc_step st c in
      if pr then s else dfa_skip st' t
  end.

(** The number of printable characters. *)
Fixpoint dfa_strlen (st : esc_state) (s : string) : Z :=
  match s with
  | EmptyString => 0
  | String c t =>
      let (st', pr) := esc_step st c in
      (if pr then 1 else 0) + dfa_strlen st' t
  end.

(** The offset of the printable character number [l] (from 0), or the
    length of the string when there is none. *)
Fixpoint dfa_rawlen (st : esc_state) (s : string) (l : Z) : Z :=
  match s with
  | EmptyString => 0
  | String c t =>
      let (st', pr) := esc_step st c in
      if pr then
        if l =? 0 then 0 else 1 + dfa_rawlen st' t (l - 1)
      else 1 + dfa_rawlen st' t l
  end.

(** The state the scan is in after the whole string. *)
Fixpoint dfa_state (st : esc_state) (s : string) : esc_state :=
  match s with
  | EmptyString => st
  | String c t => dfa_state (fst (esc_step st c)) t
  end.

Fixpoint all_in_range (lo hi : N) (s : string) : bool :=
  match s with
  | EmptyString => true
  | String c t => in_range lo hi c && all_in_range lo hi t
  end.

(** A CSI sequence as [esc_skip] recognizes it: the escape character, a
    bracket, parameter bytes, intermediate bytes and a final byte. *)
Definition csi_sequence (ps ib : string) (f : ascii) : string :=
  String ESC (String "[" (ps ++ ib ++ String f EmptyString)).

Definition is_csi (ps ib : string) (f : ascii) : bool :=
  all_in_range 48 63 ps && all_in_range 32 47 ib && in_range 64 126 f.

(* ================================================================== *)
(** * A concrete session

    Thread A calls [prgi_init(10)] when the clock reads 100 s, and records
    one unit 10 ms later, on an 80-column terminal; thread B then calls
    [prgi_init_thread(10)] and records one unit 10 ms after A did. *)

Definition session_clk0 : timespec := mkTimespec 100 0.
Definition session_clk1 : timespec := mkTimespec 100 10000000.
Definition session_clk2 : timespec := mkTimespec 100 20000000.

Definition session_A0 : prgi_thread_state_ * shared :=
  prgi_init session_clk0 10 shared_static.

Definition session_A1 : bool * prgi_thread_state_ * shared :=
  prgi_update 1 session_clk1 80 (fst session_A0) (snd session_A0).

Definition session_B0 : prgi_thread_state_ * shared :=
  prgi_init_thread 10 (snd session_A1).


(** [n] further calls [prgi_update(1)], each against the shared state [w]
    and with the clock at [clk]. *)
Definition unit_calls (n : nat) (clk : timespec) (w : shared)
  : list update_call :=
  repeat (mkCall 1 clk 80 w) n.

(** Thread A's first record, had the terminal been 3 columns wide. *)
Definition session_narrow : bool * prgi_thread_state_ * shared :=
  prgi_update 1 session_clk1 3 (fst session_A0) (snd session_A0).

(** The prefixes [sipref] can attach: every entry of [pw] that is followed
    by an entry with a prefix. *)
Definition pw_used : list (double * string) :=
  [ (double_of_Z (10 ^ 3), "K"); (double_of_Z (10 ^ 6), "M");
    (double_of_Z (10 ^ 9), "G"); (double_of_Z (10 ^ 12), "T");
    (double_of_Z (10 ^ 15), "P"); (double_of_Z (10 ^ 18), "E");
    (double_of_Z (10 ^ 21), "Z"); (double_of_Z (10 ^ 24), "Y");
    (double_of_Z (10 ^ 27), "R") ].

(* ================================================================== *)
(** * Further definitions

    The functions of [prgi.c] not met so far, and what the statements of
    their properties need. *)

(** Whether [s] holds the escape character. *)
Fixpoint has_esc (s : string) : bool :=
  match s with
  | EmptyString => false
  | String c t => Ascii.eqb c ESC || has_esc t
  end.

(** [s] written [n] times. *)
Fixpoint repeat_string (s : string) (n : nat) : string :=
  match n with
  | O => EmptyString
  | S n' => s ++ repeat_string s n'
  end.

(** The two erase sequences of [prgi_clear]. *)
Definition erase_first : string := String CR (String ESC "[K").
Definition erase_up : string := String ESC "[A" ++ String ESC "[K".

(** The cursor parking sequence of [prgi_puts]. *)
Definition park (width : Z) : string :=
  String ESC "[" ++ fmt_d width ++ "G".

(** Successive calls of [prgi_puts]. *)
Definition puts_all (ss : list string) (w : shared) : shared :=
  fold_left (fun w s => prgi_puts s w) ss w.

(** The bytes successive calls of [prgi_puts] write, [n] lines being
    already on the screen. *)
Fixpoint puts_bytes (width pwidth n : Z) (ss : list string) : string :=
  match ss with
  | [] => EmptyString
  | s :: ss' =>
      (if n =? 0 then EmptyString else String LF EmptyString)
      ++ puts_line width s ++ park pwidth
      ++ puts_bytes width pwidth (n + 1) ss'
  end.

(** A call that reads a terminal width reads one below 3 (no terminal, or
    too narrow a one). *)
Definition no_terminal (c : call) : Prop :=
  match c with
  | Call_update _ _ _ tw => tw < 3
  | _ => True
  end.

(** The threads registered by a sequence of calls, latest first, [ids]
    being registered before it. *)
Fixpoint registered (ids : list nat) (cs : list call) : list nat :=
  match cs with
  | [] => ids
  | Call_init_thread t _ :: cs' => registered (t :: ids) cs'
  | _ :: cs' => registered ids cs'
  end.

(** The discipline of [prgi.h]: a thread calls [prgi_init_thread] once,
    before it calls [prgi_update]. *)
Fixpoint disciplined (ids : list nat) (cs : list call) : Prop :=
  match cs with
  | [] => True
  | Call_init_thread t _ :: cs' => ~ In t ids /\ disciplined (t :: ids) cs'
  | Call_update t _ _ _ :: cs' => In t ids /\ disciplined ids cs'
  | _ :: cs' => disciplined ids cs'
  end.

Definition sum_over (f : prgi_thread_state_ -> Z)
  (ths : nat -> prgi_thread_state_) (ids : list nat) : Z :=
  fold_right (fun t acc => f (ths t) + acc) 0 ids.
(** The invariant of a disciplined program: the global count is the sum of
    what the registered threads have synchronized, the global total the sum
    of their totals. *)
Definition aggregate_inv (ids : list nat) (st : program_state) : Prop :=
  NoDup ids
  /\ global_count (global (shared_state st))
     = wrap_long (sum_over thread_last_count (threads st) ids)
  /\ global_total (global (shared_state st))
     = wrap_long (sum_over thread_total (threads st) ids).

(* ================================================================== *)
(** * [prgi_throbber] *)

(** [s[i]]: a character of the string, the terminator at its end; nothing
    outside of the string. *)
Definition char_at (s : string) (i : Z) : option ascii :=
  if (0 <=? i) && (i <=? strlen s)
  then Some (deref (skipn (Z.to_nat i) s))
  else None.

(** [prgi_throbber(anim)], with [i] the function's static counter: the
    character returned and the counter afterwards. *)
Definition prgi_throbber (anim : string) (i : Z) (w : shared)
  : option ascii * Z :=
  if global_count (global w) =? global_total (global w)
  then (Some " "%char, i)
  else
    match char_at anim i with
    | Some c =>
        if Ascii.eqb c NUL then (Some (deref anim), 1)
        else (Some c, wrap_int (i + 1))
    | None => (None, wrap_int (i + 1))
    end.

(** The characters returned by [n] successive calls. *)
Fixpoint throbber_frames (anim : string) (w : shared) (n : nat) (i : Z)
  : list (option ascii) :=
  match n with
  | O => []
  | S n' =>
      let (c, i') := prgi_throbber anim i w in
      c :: throbber_frames anim w n' i'
  end.

(* ================================================================== *)
(** * [prgi_printf] *)

(** [prgi_printf(format, ...)].  The arguments of the call are evaluated
    before it, and the one that comes from [prgi_bar] or [prgi_bartxt]
    points to the static buffer of [bar_doit], which [prgi_printf] has
    [bar_doit] rewrite between its two [vsnprintf]: [format buf] is what
    [vsnprintf] makes of the format and the arguments when that buffer
    holds [buf].  The result is the content of the buffer and the shared
    state afterwards; there is none when [bar_doit] has none. *)
Definition prgi_printf (format : string -> string) (buf : string)
  (w : shared) : option (string * shared) :=
  if negb (valid_terminal w) then Some (buf, w)
  else
    let r :=
      if global_expand_count (global w) =? 0 then Some (buf, w)
      else
        let line_buf := sprn LINEBUFSIZE (format buf) in
        let avail_len :=
          wrap_int (global_width (global w) - esc_strlen line_buf) in
        let expand_len :=
          if global_expand_count (global w) <? avail_len
          then c_div avail_len (global_expand_count (global w))
          else 1 in
        let r :=
          if bar_expand (bar w) then
            match bar_doit expand_len w with
            | (Some b, w) => Some (b, set_bar (with_expand false) w)
            | (None, _) => None
            end
          else Some (buf, w) in
        match r with
        | Some (buf, w) => Some (buf, set_global (with_expand_count 0) w)
        | None => None
        end in
    match r with
    | Some (buf, w) =>
        Some (buf, prgi_puts (sprn LINEBUFSIZE (format buf)) w)
    | None => None
    end.

(** The two-character bar: [n] filled cells, then empty ones up to
    [len]. *)
Definition plain_bar (f0 f1 : ascii) (n len : Z) : string :=
  repeat_char f0 (Z.to_nat n) ++ repeat_char f1 (Z.to_nat (len - n)).

(** A whole number of seconds below a day, in seconds, in minutes and
    seconds, or in hours and minutes. *)
Definition hms (n : Z) : string :=
  if n <? 60 then fmt_d n ++ "s"
  else if n <? 3600
       then fmt_d (n / 60) ++ "m" ++ fmt_02d (n mod 60) ++ "s"
       else fmt_d (n / 3600) ++ "h" ++ fmt_02d (n / 60 mod 60) ++ "m".

(** A whole number from 1 to 999 in three significant digits. *)
Definition digits3 (k : Z) : string :=
  fmt_d k ++ (if k <? 10 then ".00" else if k <? 100 then ".0"
              else EmptyString).

(** No prefix, then the prefixes of the thousands up to 1000^6. *)
Definition si_prefixes : list string :=
  [EmptyString; "K"; "M"; "G"; "T"; "P"; "E"].

(** The state of a thread and the shared state after successive calls of
    [prgi_update] by that thread, and whether one of them returned
    true. *)
Fixpoint update_all (cs : list (Z * timespec * Z))
  (th : prgi_thread_state_) (w : shared)
  : bool * prgi_thread_state_ * shared :=
  match cs with
  | [] => (false, th, w)
  | (inc, clk, tw) :: cs' =>
      let '(r, th1, w1) := prgi_update inc clk tw th w in
      let '(r', th2, w2) := update_all cs' th1 w1 in
      (r || r', th2, w2)
  end.

Definition sum_of_incs (cs : list (Z * timespec * Z)) : Z :=
  fold_right (fun c acc => fst (fst c) + acc) 0 cs.

(* ################################################################## *)
(** * Properties *)

(* ================================================================== *)
(** ** Machine integers *)

Lemma wrap_long_id z : in_long z -> wrap_long z = z.
Proof.
  unfold in_long, wrap_long, LONG_MIN, LONG_MAX. intros H.
  rewrite Z.mod_small; lia.
Qed.

Lemma wrap_long_range z : in_long (wrap_long z).
Proof.
  unfold in_long, wrap_long, LONG_MIN, LONG_MAX.
  pose proof (Z.mod_pos_bound (z + 2 ^ 63) (2 ^ 64) ltac:(lia)). lia.
Qed.

Lemma wrap_long_idem z : wrap_long (wrap_long z) = wrap_long z.
Proof. apply wrap_long_id, wrap_long_range. Qed.

(* ================================================================== *)
(** ** The erase step leaves the snapshot and the counters alone *)

Lemma clear_loop_frame fuel w :
  prgi (clear_loop fuel w) = prgi w
  /\ bar (clear_loop fuel w) = bar w
  /\ global (clear_loop fuel w)
     = with_printed_lines (global_printed_lines (global (clear_loop fuel w)))
         (global w).
Proof.
  revert w. induction fuel as [|fuel IH]; intros w; simpl.
  - repeat split. destruct (global w); reflexivity.
  - destruct (global_printed_lines (global w) =? 0).
    + repeat split. destruct (global w); reflexivity.
    + match goal with |- context [clear_loop fuel ?x] =>
        destruct (IH x) as (Hp & Hb & Hg) end.
      rewrite Hp, Hb. repeat split.
      rewrite Hg at 1. destruct w as [p [] b t]; reflexivity.
Qed.

Lemma prgi_clear_frame w :
  prgi (prgi_clear w) = prgi w
  /\ bar (prgi_clear w) = bar w
  /\ global (prgi_clear w)
     = with_printed_lines (global_printed_lines (global (prgi_clear w)))
         (global w).
Proof.
  unfold prgi_clear.
  destruct (global_printed_lines (global w) =? 0).
  { repeat split. destruct (global w); reflexivity. }
  destruct (negb (valid_terminal w)).
  { repeat split. }
  match goal with |- context [clear_loop ?f ?x] =>
    destruct (clear_loop_frame f x) as (Hp & Hb & Hg) end.
  rewrite Hp, Hb. repeat split.
  rewrite Hg at 1. destruct w as [p [] b t]; reflexivity.
Qed.

Lemma wrap_int_id z : in_int z -> wrap_int z = z.
Proof.
  unfold in_int, wrap_int, INT_MIN, INT_MAX. intros H.
  rewrite Z.mod_small; lia.
Qed.

Lemma clear_loop_lines fuel : forall w,
  0 <= global_printed_lines (global w) <= INT_MAX ->
  (Z.to_nat (global_printed_lines (global w)) <= fuel)%nat ->
  global_printed_lines (global (clear_loop fuel w)) = 0.
Proof.
  induction fuel as [|fuel IH]; intros w Hn Hf; cbn [clear_loop].
  - lia.
  - destruct (Z.eqb_spec (global_printed_lines (global w)) 0) as [H0|H0];
      [exact H0|].
    assert (Hw : wrap_int (global_printed_lines (global w) - 1)
                 = global_printed_lines (global w) - 1).
    { apply wrap_int_id. unfold in_int, INT_MIN, INT_MAX in *. lia. }
    apply IH; cbn [fputs set_global global with_printed_lines
                   global_printed_lines]; rewrite Hw; lia.
Qed.

(** Enough fuel: the erase step runs the count of printed lines down to
    zero. *)
Lemma prgi_clear_lines w :
  0 <= global_printed_lines (global w) <= INT_MAX ->
  global_printed_lines (global (prgi_clear w)) = 0.
Proof.
  intros Hn. unfold prgi_clear.
  destruct (Z.eqb_spec (global_printed_lines (global w)) 0) as [H0|H0];
    [exact H0|].
  destruct (negb (valid_terminal w)); [reflexivity|].
  assert (Hw : wrap_int (global_printed_lines (global w) - 1)
               = global_printed_lines (global w) - 1).
  { apply wrap_int_id. unfold in_int, INT_MIN, INT_MAX in *. lia. }
  apply clear_loop_lines;
    cbn [fputs set_global global with_printed_lines global_printed_lines];
    rewrite Hw; lia.
Qed.

Lemma prgi_clear_count w :
  global_count (global (prgi_clear w)) = global_count (global w).
Proof.
  destruct (prgi_clear_frame w) as (_ & _ & Hg). rewrite Hg.
  destruct (global w); reflexivity.
Qed.

(** What [prgi_update__] returns, and the thread state it leaves. *)
Lemma prgi_update___result clk tw th w :
  let thread_delta := wrap_long (thread_count th - thread_last_count th) in
  let now := timef (global_start (global w)) clk in
  let count := wrap_long (global_count (global w) + thread_delta) in
  let rdy := ready (prgi_update_interval (prgi w))
               (f32_sub now (global_last_time (global w))) in
  fst (fst (prgi_update__ clk tw th w)) = publish rdy count thread_delta th
  /\ snd (fst (prgi_update__ clk tw th w))
     = update_mark (prgi_update_interval (prgi w)) now th
  /\ global_count (global (snd (prgi_update__ clk tw th w))) = count.
Proof.
  intros thread_delta now count rdy. unfold prgi_update__.
  fold thread_delta. fold now. cbn [prgi_lock set_global prgi global bar tty].
  replace (global_start (with_lock true (global w)))
    with (global_start (global w)) by (destruct (global w); reflexivity).
  replace (global_count (with_lock true (global w)))
    with (global_count (global w)) by (destruct (global w); reflexivity).
  replace (global_last_time (with_lock true (global w)))
    with (global_last_time (global w)) by (destruct (global w); reflexivity).
  fold now. fold count. fold rdy.
  destruct (publish rdy count thread_delta th); cbn [negb fst snd].
  - repeat split.
    destruct (prgi_lock_on_update _);
      cbn [prgi_unlock set_global global];
      try (match goal with |- context [with_lock false ?g] =>
             replace (global_count (with_lock false g))
               with (global_count g) by (destruct g; reflexivity) end);
      rewrite prgi_clear_count; reflexivity.
  - repeat split.
Qed.

(** In the branch that does not publish, only the global count (and the
    thread's own state) changes. *)
Lemma prgi_update___quiet clk tw th w :
  fst (fst (prgi_update__ clk tw th w)) = false ->
  prgi (snd (prgi_update__ clk tw th w)) = prgi w
  /\ tty (snd (prgi_update__ clk tw th w)) = tty w
  /\ bar (snd (prgi_update__ clk tw th w)) = bar w
  /\ global_printed_lines (global (snd (prgi_update__ clk tw th w)))
     = global_printed_lines (global w).
Proof.
  unfold prgi_update__.
  match goal with |- context [negb ?c] => destruct c end;
    cbn [negb fst snd]; [discriminate|].
  intros _. destruct w as [p [] b t]. repeat split.
Qed.

(** What a publishing [prgi_update__] leaves in the shared state, from the
    state it receives. *)
Lemma prgi_update___published clk tw th w :
  fst (fst (prgi_update__ clk tw th w)) = true ->
  let w' := snd (prgi_update__ clk tw th w) in
  let thread_delta := wrap_long (thread_count th - thread_last_count th) in
  let now := timef (global_start (global w)) clk in
  let global_dt := f32_sub now (global_last_time (global w)) in
  let count := wrap_long (global_count (global w) + thread_delta) in
  let rate :=
    if ready (prgi_update_interval (prgi w)) global_dt
    then f32_div
           (float_of_Z (wrap_long (count - global_last_count (global w))))
           global_dt
    else prgi_rate (prgi w) in
  prgi w'
  = mkPrgi (prgi_output (prgi w)) (prgi_update_interval (prgi w))
      (prgi_lock_on_update (prgi w)) tw
      (f32_div (float_of_Z count) (float_of_Z (global_total (global w))))
      now
      (f32_div (float_of_Z (wrap_long (global_total (global w) - count)))
         rate)
      rate (f32_div (float_of_Z count) now)
  /\ global_count (global w') = count
  /\ global_last_count (global w') = count
  /\ global_last_time (global w') = now
  /\ global_expand_count (global w') = 0
  /\ global_lock (global w') = prgi_lock_on_update (prgi w)
  /\ global_total (global w') = global_total (global w)
  /\ (0 <= global_printed_lines (global w) <= INT_MAX ->
      global_printed_lines (global w') = 0).
Proof.
  intros Hpub w' thread_delta now global_dt count rate.
  subst w' thread_delta now global_dt count rate.
  destruct w as [p [gs gl gt gc glc glt gw gpl gec] b t].
  revert Hpub. unfold prgi_update__.
  cbn [prgi_lock set_global with_lock prgi global bar tty global_start
       global_lock global_total global_count global_last_count
       global_last_time global_width global_printed_lines
       global_expand_count] in *.
  match goal with |- context [negb ?c] => destruct c end;
    cbn [negb fst snd]; [|discriminate]. intros _.
  match goal with |- context [prgi_clear ?x] =>
    destruct (prgi_clear_frame x) as (Hp & _ & Hg);
    pose proof (prgi_clear_lines x) as Hl;
    set (w1 := prgi_clear x) in * end.
  cbn [prgi global global_printed_lines] in Hp, Hg, Hl.
  destruct (prgi_lock_on_update p) eqn:Hlou;
    cbn [prgi_lock_on_update];
    rewrite ?Hlou;
    cbn [prgi_unlock set_global prgi global];
    rewrite ?Hp; rewrite Hg;
    cbn [with_lock with_printed_lines prgi_elapsed prgi_width prgi_rate
         prgi_remaining prgi_output prgi_update_interval prgi_lock_on_update
         global_count global_last_count global_last_time global_expand_count
         global_printed_lines global_total global_lock];
    repeat split; try reflexivity; try assumption.
Qed.

(* ================================================================== *)
(** ** The decision to publish *)


(** C8.  When the decision of [prgi_update__] is not to publish, it returns
    false, the status fields of [prgi] keep their values, nothing is
    written to the output and the count of printed lines is untouched (no
    line is erased). *)
Theorem prgi_update___no_publish_frame clk tw th w :
  let thread_delta := wrap_long (thread_count th - thread_last_count th) in
  let now := timef (global_start (global w)) clk in
  let rdy := ready (prgi_update_interval (prgi w))
               (f32_sub now (global_last_time (global w))) in
  publish rdy (wrap_long (global_count (global w) + thread_delta))
    thread_delta th = false ->
  let w' := snd (prgi_update__ clk tw th w) in
  fst (fst (prgi_update__ clk tw th w)) = false
  /\ prgi_progress (prgi w') = prgi_progress (prgi w)
  /\ prgi_elapsed (prgi w') = prgi_elapsed (prgi w)
  /\ prgi_remaining (prgi w') = prgi_remaining (prgi w)
  /\ prgi_rate (prgi w') = prgi_rate (prgi w)
  /\ prgi_mean_rate (prgi w') = prgi_mean_rate (prgi w)
  /\ prgi_width (prgi w') = prgi_width (prgi w)
  /\ tty w' = tty w
  /\ global_printed_lines (global w') = global_printed_lines (global w).
Proof.
  intros thread_delta now rdy Hno w'.
  destruct (prgi_update___result clk tw th w) as (Hr & _ & _).
  fold thread_delta in Hr. fold now in Hr. fold rdy in Hr.
  rewrite Hno in Hr.
  destruct (prgi_update___quiet clk tw th w Hr) as (Hp & Ht & _ & Hl).
  fold w' in Hp, Ht, Hl. rewrite Hp. repeat split; assumption.
Qed.

Lemma prgi_update___no_publish_frame_witness :
  publish
    (ready (prgi_update_interval (prgi (snd session_B0)))
       (f32_sub (timef (global_start (global (snd session_B0))) session_clk2)
          (global_last_time (global (snd session_B0)))))
    (wrap_long (global_count (global (snd session_B0)) + 1)) 1
    (with_count 1 (fst session_B0)) = false
  /\ fst (fst (prgi_update__ session_clk2 80 (with_count 1 (fst session_B0))
                 (snd session_B0))) = false
  /\ tty (snd (prgi_update__ session_clk2 80 (with_count 1 (fst session_B0))
                 (snd session_B0))) = tty (snd session_B0).
Proof.
  split; [vm_compute; reflexivity|].
  pose proof (prgi_update___no_publish_frame session_clk2 80
                (with_count 1 (fst session_B0)) (snd session_B0)) as H.
  cbv zeta in H. split; apply H; vm_compute; reflexivity.
Defined.

(* ================================================================== *)
(** ** The mark never passes the total of an unfinished thread *)

Lemma update_mark_fields update now th :
  thread_total (update_mark update now th) = thread_total th
  /\ thread_count (update_mark update now th) = thread_count th.
Proof. split; reflexivity. Qed.

Lemma update_mark_ok update now th : mark_ok (update_mark update now th).
Proof.
  unfold mark_ok, update_mark. cbn [thread_total thread_count thread_mark].
  intros Hlt.
  apply Z.ltb_lt in Hlt. rewrite Hlt. cbn [andb].
  match goal with |- context [thread_total th <? ?m] =>
    destruct (Z.ltb_spec (thread_total th) m) end; lia.
Qed.

Lemma prgi_update_thread inc clk tw th w :
  let th1 := with_count (wrap_long (thread_count th + inc)) th in
  snd (fst (prgi_update inc clk tw th w))
  = if thread_mark th1 <=? thread_count th1
    then update_mark (prgi_update_interval (prgi w))
           (timef (global_start (global w)) clk) th1
    else th1.
Proof.
  intros th1. unfold prgi_update. fold th1.
  destruct (thread_mark th1 <=? thread_count th1); [|reflexivity].
  apply (prgi_update___result clk tw th1 w).
Qed.

Lemma prgi_update_step inc clk tw th w :
  mark_ok th -> in_long (thread_count th) ->
  0 <= inc -> thread_count th + inc <= LONG_MAX ->
  let th' := snd (fst (prgi_update inc clk tw th w)) in
  mark_ok th'
  /\ thread_total th' = thread_total th
  /\ thread_count th' = thread_count th + inc.
Proof.
  intros Hok Hc Hinc Hmax th'. subst th'. rewrite prgi_update_thread.
  assert (Hw : wrap_long (thread_count th + inc) = thread_count th + inc).
  { apply wrap_long_id. unfold in_long in *. lia. }
  rewrite Hw.
  destruct (Z.leb_spec
              (thread_mark (with_count (thread_count th + inc) th))
              (thread_count (with_count (thread_count th + inc) th)))
    as [Hle|Hgt].
  - split; [apply update_mark_ok|]. split; reflexivity.
  - cbn [with_count thread_mark thread_count] in Hgt.
    split; [|split; reflexivity].
    unfold mark_ok in *. cbn [with_count thread_mark thread_count thread_total].
    intros H. apply Hok. lia.
Qed.

Lemma thread_run_inv cs : forall th,
  mark_ok th -> in_long (thread_count th) ->
  nonneg_incs cs -> thread_count th + sum_incs cs <= LONG_MAX ->
  mark_ok (thread_run cs th)
  /\ thread_total (thread_run cs th) = thread_total th
  /\ thread_count (thread_run cs th) = thread_count th + sum_incs cs.
Proof.
  induction cs as [|c cs IH]; intros th Hok Hc Hnn Hmax; simpl in *.
  - repeat split; [assumption | lia].
  - inversion Hnn as [|? ? Hc0 Hnn']; subst.
    assert (Hsum : 0 <= sum_incs cs).
    { clear - Hnn'. induction Hnn'; simpl; lia. }
    destruct (prgi_update_step (call_inc c) (call_clk c) (call_tw c) th
                (call_shared c) Hok Hc Hc0 ltac:(lia)) as (Hok1 & Ht1 & Hc1).
    destruct (IH _ Hok1) as (Hok2 & Ht2 & Hc2).
    + unfold in_long in *. rewrite Hc1. lia.
    + assumption.
    + rewrite Hc1. lia.
    + rewrite Ht2, Hc2, Ht1, Hc1. repeat split; [assumption | lia].
Qed.


(** The call that brings the count up to the total runs [prgi_update__]. *)
Lemma prgi_update_at_total inc clk tw th w :
  mark_ok th -> in_long (thread_total th) ->
  thread_count th < thread_total th ->
  thread_count th + inc = thread_total th ->
  prgi_update inc clk tw th w
  = prgi_update__ clk tw (with_count (thread_total th) th) w.
Proof.
  intros Hok Ht Hlt Hsum. unfold prgi_update.
  rewrite Hsum, (wrap_long_id _ Ht).
  cbn [with_count thread_mark thread_count].
  destruct (Z.leb_spec (thread_mark th) (thread_total th)) as [_|Hgt];
    [reflexivity | specialize (Hok Hlt); lia].
Qed.

(** C3.  After the mark re-estimation of [prgi_update__] (whatever the
    elapsed interval since the thread's last synchronization, so in
    particular when it is positive), a thread whose count is still below
    its total has its mark at most at its total; hence, as the thread goes
    on recording non-negative increments, the call on which its count
    reaches the total runs [prgi_update__] and publishes: it returns
    true, the thread is synchronized at its total, the thread's delta is
    merged into the global count, and progress, elapsed time and mean rate
    are recomputed from the merged count. *)
Theorem mark_clamped_final_publish clk tw th w cs inc clk' tw' w' :
  let th1 := snd (fst (prgi_update__ clk tw th w)) in
  thread_count th1 < thread_total th1 ->
  in_long (thread_count th1) -> in_long (thread_total th1) ->
  nonneg_incs cs -> thread_count th1 + sum_incs cs <= LONG_MAX ->
  let th2 := thread_run cs th1 in
  thread_count th2 < thread_total th2 ->
  thread_count th2 + inc = thread_total th2 ->
  let r := prgi_update inc clk' tw' th2 w' in
  let thread_delta := wrap_long (thread_total th2 - thread_last_count th2) in
  let count := wrap_long (global_count (global w') + thread_delta) in
  let now := timef (global_start (global w')) clk' in
  thread_mark th1 <= thread_total th1
  /\ fst (fst r) = true
  /\ thread_count (snd (fst r)) = thread_total th2
  /\ thread_last_count (snd (fst r)) = thread_total th2
  /\ thread_last_time (snd (fst r)) = now
  /\ global_count (global (snd r)) = count
  /\ global_last_count (global (snd r)) = count
  /\ global_last_time (global (snd r)) = now
  /\ prgi_progress (prgi (snd r))
     = f32_div (float_of_Z count) (float_of_Z (global_total (global w')))
  /\ prgi_elapsed (prgi (snd r)) = now
  /\ prgi_mean_rate (prgi (snd r)) = f32_div (float_of_Z count) now.
Proof.
  intros th1 Hlt Hc Ht Hnn Hmax th2 Hlt2 Hsum r thread_delta count now.
  assert (Hok : mark_ok th1).
  { subst th1. destruct (prgi_update___result clk tw th w) as (_ & Hth & _).
    rewrite Hth. apply update_mark_ok. }
  split; [exact (Hok Hlt)|].
  destruct (thread_run_inv cs th1 Hok Hc Hnn Hmax) as (Hok2 & Ht2 & _).
  fold th2 in Hok2, Ht2.
  assert (Hr : r = prgi_update__ clk' tw'
                     (with_count (thread_total th2) th2) w').
  { subst r. apply prgi_update_at_total; try assumption.
    rewrite Ht2. assumption. }
  destruct (prgi_update___result clk' tw'
              (with_count (thread_total th2) th2) w') as (Hres & Hth & _).
  assert (Hpub : fst (fst r) = true).
  { rewrite Hr, Hres. unfold publish.
    cbn [with_count thread_count thread_total]. rewrite Z.eqb_refl.
    apply orb_true_r. }
  split; [exact Hpub|].
  rewrite Hr in Hpub |- *.
  destruct (prgi_update___published clk' tw' _ w' Hpub)
    as (Hp & Hgc & Hglc & Hglt & _).
  cbn [with_count thread_count thread_last_count] in Hp, Hgc, Hglc.
  fold thread_delta in Hp, Hgc, Hglc. fold count in Hp, Hgc, Hglc.
  fold now in Hp, Hglt.
  rewrite Hth, Hp, Hgc, Hglc, Hglt. repeat split.
Qed.


Lemma mark_clamped_final_publish_witness :
  let th1 := snd (fst (prgi_update__ session_clk1 80
                         (with_count 1 (fst session_A0)) (snd session_A0))) in
  let th2 := thread_run (unit_calls 8 session_clk2 (snd session_A1)) th1 in
  let r := prgi_update 1 session_clk2 80 th2 (snd session_B0) in
  thread_count th1 < thread_total th1
  /\ thread_count th2 + 1 = thread_total th2
  /\ thread_mark th1 <= thread_total th1
  /\ fst (fst r) = true
  /\ global_count (global (snd r)) = 10
  /\ thread_last_count (snd (fst r)) = 10.
Proof.
  intros th1 th2 r.
  split; [vm_compute; reflexivity|].
  split; [vm_compute; reflexivity|].
  pose proof (mark_clamped_final_publish session_clk1 80
           (with_count 1 (fst session_A0)) (snd session_A0)
           (unit_calls 8 session_clk2 (snd session_A1)) 1 session_clk2 80
           (snd session_B0)) as H.
  cbv zeta in H. fold th1 in H. fold th2 in H. fold r in H.
  destruct H as (Hm & Hr & _ & Hl & _ & Hg & _).
  - vm_compute; reflexivity.
  - vm_compute. split; discriminate.
  - vm_compute. split; discriminate.
  - unfold nonneg_incs, unit_calls. simpl. repeat constructor; simpl; lia.
  - vm_compute. discriminate.
  - vm_compute; reflexivity.
  - vm_compute; reflexivity.
  - split; [exact Hm|]. split; [exact Hr|].
    split; [rewrite Hg | rewrite Hl]; vm_compute; reflexivity.
Defined.



(* ================================================================== *)
(** ** The snapshot before the first publish *)

Lemma prgi_update_quiet inc clk tw th w :
  fst (fst (prgi_update inc clk tw th w)) = false ->
  prgi (snd (prgi_update inc clk tw th w)) = prgi w.
Proof.
  unfold prgi_update.
  match goal with |- context [if ?c then _ else _] => destruct c end.
  - intros H. apply (prgi_update___quiet _ _ _ _ H).
  - reflexivity.
Qed.

Lemma prgi_puts_prgi s w : prgi (prgi_puts s w) = prgi w.
Proof.
  unfold prgi_puts. destruct (negb (valid_terminal w)); [reflexivity|].
  destruct (global_printed_lines (global w) =? 0); reflexivity.
Qed.

Lemma bar_doit_prgi len w : prgi (snd (bar_doit len w)) = prgi w.
Proof.
  unfold bar_doit. destruct (len <=? 0); [reflexivity|].
  destruct (negb (Ascii.eqb (bar_fill1 (bar w)) NUL)); [reflexivity|].
  destruct (bar_fill (bar w) (bar_len len) (bar_len len)); [|reflexivity].
  destruct (0 <=? bar_filled (bar_len len) (prgi_progress (prgi w)));
    reflexivity.
Qed.

Lemma exec_quiet c st :
  fst (exec c st) = false ->
  prgi (shared_state (snd (exec c st))) = prgi (shared_state st).
Proof.
  destruct c as [t total|t inc clk tw|s| |len f0 f1|]; cbn [exec].
  - reflexivity.
  - pose proof (prgi_update_quiet inc clk tw (threads st t) (shared_state st))
      as H.
    destruct (prgi_update inc clk tw (threads st t) (shared_state st))
      as [[r th] w']. exact H.
  - intros _. apply prgi_puts_prgi.
  - intros _. apply prgi_clear_frame.
  - intros _. cbn [snd shared_state]. unfold prgi_bar.
    rewrite bar_doit_prgi. reflexivity.
  - reflexivity.
Qed.

Lemma exec_all_quiet cs : forall st,
  fst (exec_all cs st) = false ->
  prgi (shared_state (snd (exec_all cs st))) = prgi (shared_state st).
Proof.
  induction cs as [|c cs IH]; intros st; cbn [exec_all].
  - reflexivity.
  - pose proof (exec_quiet c st) as Hc.
    destruct (exec c st) as [r st']. cbn [fst snd] in Hc.
    pose proof (IH st') as Hcs.
    destruct (exec_all cs st') as [r' st'']. cbn [fst snd] in *.
    intros H. apply orb_false_iff in H. destruct H as [Hr Hr'].
    rewrite (Hcs Hr'). apply Hc, Hr.
Qed.

(** C10.  From [prgi_init] until some [prgi_update] returns true, whatever
    calls are made in between, [prgi.remaining], [prgi.rate] and
    [prgi.mean_rate] are NaN and [prgi.width] is -1, and [prgi_remaining],
    [prgi_rate] and [prgi_mean_rate] return the unknown marker. *)
Theorem snapshot_unknown_before_first_publish clk total w cs :
  fst (exec_all cs (after_init clk total w)) = false ->
  let w' := shared_state (snd (exec_all cs (after_init clk total w))) in
  prgi_remaining (prgi w') = NAN
  /\ prgi_rate (prgi w') = NAN
  /\ prgi_mean_rate (prgi w') = NAN
  /\ prgi_width (prgi w') = -1
  /\ prgi_remaining_str w' = "?"
  /\ prgi_rate_str w' = "?"
  /\ prgi_mean_rate_str w' = "?".
Proof.
  intros H w'.
  assert (Hp : prgi w' = prgi (shared_state (after_init clk total w))).
  { apply exec_all_quiet, H. }
  unfold prgi_remaining_str, prgi_rate_str, prgi_mean_rate_str.
  rewrite Hp. cbn. repeat split.
Qed.

Lemma snapshot_unknown_before_first_publish_witness :
  let cs := [Call_init_thread 1 10; Call_bar 0 "#" "."; Call_puts "starting";
             Call_clear; Call_update 1 (-1) session_clk1 80] in
  let st := exec_all cs (after_init session_clk0 0 shared_static) in
  fst st = false
  /\ prgi_remaining_str (shared_state (snd st)) = "?"
  /\ prgi_rate_str (shared_state (snd st)) = "?"
  /\ prgi_mean_rate_str (shared_state (snd st)) = "?".
Proof.
  intros cs st.
  split; [vm_compute; reflexivity|].
  pose proof (snapshot_unknown_before_first_publish session_clk0 0
                shared_static cs) as H.
  cbv zeta in H. repeat split; apply H; vm_compute; reflexivity.
Defined.

(* ================================================================== *)
(** ** Strings *)

Lemma prefix_skipn k : forall s, prefix k s ++ skipn k s = s.
Proof.
  induction k as [|k IH]; intros [|c t]; simpl; try reflexivity.
  rewrite IH. reflexivity.
Qed.

Lemma append_nil_r s : s ++ EmptyString = s.
Proof. induction s as [|c t IH]; simpl; [|rewrite IH]; reflexivity. Qed.

Lemma length_append s t :
  String.length (s ++ t) = (String.length s + String.length t)%nat.
Proof. induction s as [|c s IH]; simpl; [|rewrite IH]; reflexivity. Qed.

Lemma length_repeat_char c n : String.length (repeat_char c n) = n.
Proof. induction n as [|n IH]; simpl; [|rewrite IH]; reflexivity. Qed.

Lemma c_str_repeat_char c n s :
  c <> NUL -> c_str (repeat_char c n ++ s) = repeat_char c n ++ c_str s.
Proof.
  intros Hc. induction n as [|n IH]; simpl; [reflexivity|].
  destruct (Ascii.eqb_spec c NUL); [contradiction|]. rewrite IH. reflexivity.
Qed.

Lemma overwrite_centered_empty dest size :
  dest <> EmptyString -> overwrite_centered dest size EmptyString = dest.
Proof.
  intros Hd. unfold overwrite_centered, strlen.
  destruct (Z.ltb_spec (Z.of_nat (String.length EmptyString))
              (Z.of_nat (String.length dest))) as [_|H].
  - cbn [String.length append]. rewrite Nat.add_0_r. apply prefix_skipn.
  - destruct dest; [contradiction|]. simpl in H. lia.
Qed.

(* ================================================================== *)
(** ** The bar *)

Lemma bar_len_range len : 10 <= bar_len len <= MAXBARLEN.
Proof.
  unfold bar_len, MAXBARLEN, MAXLINELEN.
  destruct (Z.ltb_spec len 10); [lia|].
  destruct (Z.ltb_spec 256 len); lia.
Qed.

Lemma bar_filled_le len progress : bar_filled len progress <= len.
Proof.
  unfold bar_filled.
  match goal with |- context [len <? ?n] => destruct (Z.ltb_spec len n) end;
    lia.
Qed.

(** What holds of a bar for every progress value: the length is the
    request clamped into [[10, PRGI_MAXBARLEN]] (5 resolves to 10), the
    filled count is at most the length, and with two fill characters and
    no text that many filled cells are drawn, followed by the empty ones,
    as long as the count is not negative. *)
Lemma bar_doit_length_and_fill len f0 f1 w :
  0 < len -> f0 <> NUL -> f1 <> NUL ->
  let progress := prgi_progress (prgi w) in
  let L := bar_len len in
  let n := bar_filled L progress in
  10 <= L <= MAXBARLEN
  /\ L = Z.max 10 (Z.min MAXBARLEN len)
  /\ bar_len 5 = 10
  /\ n <= L
  /\ fst (prgi_bar len f0 f1 w)
     = if 0 <=? n
       then Some (repeat_char f0 (Z.to_nat n)
                  ++ repeat_char f1 (Z.to_nat (L - n)))
       else None.
Proof.
  intros Hlen Hf0 Hf1 progress L n.
  pose proof (bar_len_range len) as HL. fold L in HL.
  pose proof (bar_filled_le L progress) as Hn. fold n in Hn.
  split; [exact HL|]. split.
  { subst L. unfold bar_len, MAXBARLEN, MAXLINELEN.
    destruct (Z.ltb_spec len 10); [lia|].
    destruct (Z.ltb_spec 256 len); lia. }
  split; [reflexivity|]. split; [exact Hn|].
  unfold prgi_bar, bar_doit.
  destruct (Z.leb_spec len 0) as [|_]; [lia|].
  cbn [set_bar bar prgi bar_fill1 fst].
  destruct (Ascii.eqb_spec f1 NUL) as [|_]; [contradiction|]. cbn [negb fst].
  fold progress. fold L. fold n.
  unfold bar_fill. cbn [bar_fill0 bar_fill1 bar_txt].
  destruct (Z.leb_spec 0 n) as [H0|H0]; cbn [andb]; [|reflexivity].
  destruct (Z.leb_spec n L) as [_|]; [|lia].
  destruct (Z.leb_spec L MAXBARLEN) as [_|]; [|lia]. cbn [andb].
  f_equal.
  rewrite c_str_repeat_char by assumption.
  replace (c_str (repeat_char f1 (Z.to_nat (L - n))))
    with (repeat_char f1 (Z.to_nat (L - n))).
  2:{ rewrite <- (append_nil_r (repeat_char f1 _)) at 2.
      rewrite c_str_repeat_char by assumption.
      simpl. rewrite append_nil_r. reflexivity. }
  apply overwrite_centered_empty.
  intros Hempty. apply (f_equal String.length) in Hempty.
  rewrite length_append, !length_repeat_char in Hempty. simpl in Hempty. lia.
Qed.

(** A bar at a progress that is not a number. *)
Lemma bar_filled_nan len : INT_MIN <= len -> bar_filled len NAN = INT_MIN.
Proof.
  intros Hlen. unfold bar_filled, myround, f32_mul, NAN.
  replace (SFmul 24 128 (float_of_Z len) S754_nan) with S754_nan
    by (destruct (float_of_Z len); reflexivity).
  change (int_of_float (float_of_Z (int_of_float (f32_add S754_nan f32_half))))
    with INT_MIN.
  destruct (Z.ltb_spec len INT_MIN); [lia|reflexivity].
Qed.

Lemma prgi_bar_negative_fill len f0 f1 w :
  0 < len -> bar_filled (bar_len len) (prgi_progress (prgi w)) < 0 ->
  fst (prgi_bar len f0 f1 w) = None.
Proof.
  intros Hlen Hn. unfold prgi_bar, bar_doit.
  destruct (Z.leb_spec len 0) as [|_]; [lia|].
  cbn [set_bar bar prgi bar_fill1 bar_fill0 bar_txt].
  set (n := bar_filled (bar_len len) (prgi_progress (prgi w))) in *.
  destruct (negb (Ascii.eqb f1 NUL)).
  - cbn [fst]. unfold bar_fill.
    destruct (Z.leb_spec 0 n); [lia|reflexivity].
  - destruct (bar_fill _ (bar_len len) (bar_len len)); [|reflexivity].
    destruct (Z.leb_spec 0 n); [lia|reflexivity].
Qed.

(** C5.  In a program whose total work is zero, the first call of
    [prgi_update] publishes a progress that is not a number (the quotient
    [0 / 0]); for that progress the filled count of a bar of any positive
    requested length is [INT_MIN], the cap at the length does not apply,
    and [bar_doit] has no result in either drawing: [bar_fill] is called
    with a negative count. *)
Theorem prgi_bar_no_work clk0 w0 clk tw len f0 f1 :
  0 < len ->
  let r := prgi_update 0 clk tw (fst (prgi_init clk0 0 w0))
             (snd (prgi_init clk0 0 w0)) in
  let w := snd r in
  fst (fst r) = true
  /\ prgi_progress (prgi w) = NAN
  /\ bar_filled (bar_len len) (prgi_progress (prgi w)) = INT_MIN
  /\ fst (prgi_bar len f0 f1 w) = None.
Proof.
  intros Hlen r w.
  assert (Hr : r = prgi_update__ clk tw (fst (prgi_init clk0 0 w0))
                     (snd (prgi_init clk0 0 w0))) by reflexivity.
  assert (Hpub : fst (fst r) = true).
  { rewrite Hr.
    destruct (prgi_update___result clk tw (fst (prgi_init clk0 0 w0))
                (snd (prgi_init clk0 0 w0))) as (Hres & _).
    rewrite Hres. unfold publish. apply orb_true_iff. left.
    apply orb_true_iff. right. reflexivity. }
  assert (Hprog : prgi_progress (prgi w) = NAN).
  { subst w. rewrite Hr in Hpub |- *.
    destruct (prgi_update___published clk tw _ _ Hpub) as (Hp & _).
    rewrite Hp. reflexivity. }
  assert (Hn : bar_filled (bar_len len) (prgi_progress (prgi w)) = INT_MIN).
  { rewrite Hprog. apply bar_filled_nan.
    pose proof (bar_len_range len). unfold INT_MIN. lia. }
  split; [exact Hpub|]. split; [exact Hprog|]. split; [exact Hn|].
  apply prgi_bar_negative_fill; [exact Hlen|].
  rewrite Hn. reflexivity.
Qed.

Lemma prgi_bar_no_work_witness :
  let r := prgi_update 0 session_clk1 80
             (fst (prgi_init session_clk0 0 shared_static))
             (snd (prgi_init session_clk0 0 shared_static)) in
  fst (fst r) = true
  /\ bar_filled 10 (prgi_progress (prgi (snd r))) = -2147483648
  /\ fst (prgi_bar 10 "#" "." (snd r)) = None
  /\ fst (prgi_bar 10 " " NUL (snd r)) = None.
Proof.
  intros r.
  pose proof (prgi_bar_no_work session_clk0 shared_static session_clk1 80
                10 "#"%char "."%char ltac:(lia)) as H.
  pose proof (prgi_bar_no_work session_clk0 shared_static session_clk1 80
                10 " "%char NUL ltac:(lia)) as H'.
  cbv zeta in H, H'. fold r in H, H'.
  destruct H as (Hr & _ & Hn & Hb). destruct H' as (_ & _ & _ & Hb').
  split; [exact Hr|]. split; [exact Hn|]. split; [exact Hb|exact Hb'].
Defined.

(** At that progress [prgi_percent] writes the NaN, cut to the four bytes
    its buffer holds. *)
Remark prgi_percent_nan_progress w :
  prgi_progress (prgi w) = NAN -> prgi_percent w = "-nan".
Proof. intros H. unfold prgi_percent. rewrite H. reflexivity. Qed.

(** [myround] adds one half and truncates, in single precision: on
    [0.49999997] (10 times the float just below 0.05) the sum rounds up to
    1, and so does [myround]. *)
Remark myround_single_precision :
  bar_filled 10 (S754_finite false 13421772 (-28)) = 1.
Proof. reflexivity. Qed.

(** The rounding of [myround] on the cases a bar meets: a full bar at
    progress 1, an empty one at progress 0, half of an even length at
    progress 1/2, for every resolved length. *)
Lemma bar_filled_exact_cases :
  forallb
    (fun k =>
       let L := Z.of_nat k + 10 in
       (bar_filled L (float_of_Z 1) =? L)
       && (bar_filled L (float_of_Z 0) =? 0)
       && (bar_filled (2 * L) f32_half =? L))
    (seq 0 247) = true.
Proof. vm_compute. reflexivity. Qed.

(* ================================================================== *)
(** ** The loops of [esc_skip] and the automaton *)

Lemma esc_step_ESC st : esc_step st ESC = (AfterEsc, false).
Proof. destruct st; reflexivity. Qed.

Lemma dfa_skip_inters t :
  dfa_skip Ground (skip_one 64 126 (skip_range 32 47 t)) = dfa_skip Inters t.
Proof.
  induction t as [|c t IH]; [reflexivity|].
  cbn [skip_range dfa_skip]. unfold esc_step.
  destruct (Ascii.eqb_spec c ESC) as [->|Hc].
  - reflexivity.
  - destruct (in_range 32 47 c) eqn:Hi; [exact IH|].
    unfold skip_one. cbn [deref next].
    destruct (in_range 64 126 c) eqn:Hf; [reflexivity|].
    cbn [dfa_skip]. unfold esc_step.
    destruct (Ascii.eqb_spec c ESC); [contradiction|reflexivity].
Qed.

Lemma dfa_skip_params t :
  dfa_skip Ground (skip_one 64 126 (skip_range 32 47 (skip_range 48 63 t)))
  = dfa_skip Params t.
Proof.
  induction t as [|c t IH]; [reflexivity|].
  cbn [skip_range]. destruct (in_range 48 63 c) eqn:Hp.
  - rewrite IH. cbn [dfa_skip]. unfold esc_step.
    destruct (Ascii.eqb_spec c ESC) as [->|_]; [discriminate Hp|].
    rewrite Hp. reflexivity.
  - rewrite dfa_skip_inters. cbn [dfa_skip]. unfold esc_step.
    destruct (Ascii.eqb c ESC); [reflexivity|]. rewrite Hp. reflexivity.
Qed.

Lemma dfa_skip_body t :
  dfa_skip Ground (esc_skip_body (String ESC t)) = dfa_skip AfterEsc t.
Proof.
  unfold esc_skip_body. cbn [next].
  destruct t as [|c t]; [reflexivity|]. cbn [deref next].
  destruct (Ascii.eqb_spec c "[") as [->|Hc].
  - apply dfa_skip_params.
  - cbn [dfa_skip]. unfold esc_step.
    destruct (Ascii.eqb c ESC); [reflexivity|].
    destruct (Ascii.eqb_spec c "["); [contradiction|reflexivity].
Qed.

Lemma length_skip_range lo hi p :
  (String.length (skip_range lo hi p) <= String.length p)%nat.
Proof.
  induction p as [|c t IH]; simpl; [lia|].
  destruct (in_range lo hi c); simpl; lia.
Qed.

Lemma length_next p : (String.length (next p) <= String.length p)%nat.
Proof. destruct p; simpl; lia. Qed.

Lemma length_esc_skip_body t :
  (String.length (esc_skip_body (String ESC t)) <= String.length t)%nat.
Proof.
  unfold esc_skip_body. cbn [next].
  destruct (Ascii.eqb (deref t) "["); [|lia].
  pose proof (length_next t).
  pose proof (length_skip_range 48 63 (next t)).
  pose proof (length_skip_range 32 47 (skip_range 48 63 (next t))).
  pose proof (length_next (skip_range 32 47 (skip_range 48 63 (next t)))).
  unfold skip_one. destruct (in_range 64 126 _); lia.
Qed.

Lemma esc_skip_loop_dfa fuel : forall s,
  (String.length s <= fuel)%nat -> esc_skip_loop fuel s = dfa_skip Ground s.
Proof.
  induction fuel as [|fuel IH]; intros s Hlen.
  - destruct s; [reflexivity|simpl in Hlen; lia].
  - cbn [esc_skip_loop]. destruct s as [|c t]; [reflexivity|].
    cbn [deref dfa_skip]. unfold esc_step.
    destruct (Ascii.eqb_spec c ESC) as [->|_]; [|reflexivity].
    rewrite IH.
    + apply dfa_skip_body.
    + pose proof (length_esc_skip_body t). simpl in Hlen. lia.
Qed.

(** Enough fuel: [esc_skip] is the scan to the next printable character. *)
Lemma esc_skip_dfa s : esc_skip s = dfa_skip Ground s.
Proof. apply esc_skip_loop_dfa. lia. Qed.

Lemma esc_step_printable st c st' :
  esc_step st c = (st', true) -> st' = Ground /\ c <> ESC.
Proof.
  unfold esc_step. destruct (Ascii.eqb_spec c ESC) as [->|Hc];
    [discriminate|].
  intros H. split; [|assumption].
  destruct st; try (destruct (Ascii.eqb c "["));
    repeat match type of H with
           | context [if ?b then _ else _] => destruct b
           end; congruence.
Qed.

Lemma length_dfa_skip st s :
  (String.length (dfa_skip st s) <= String.length s)%nat.
Proof.
  revert st. induction s as [|c t IH]; intros st; simpl; [lia|].
  destruct (esc_step st c) as [st' []]; simpl; [lia|].
  specialize (IH st'). lia.
Qed.

Lemma no_nul_dfa_skip st s : no_nul s = true -> no_nul (dfa_skip st s) = true.
Proof.
  revert st. induction s as [|c t IH]; intros st H; simpl; [reflexivity|].
  destruct (esc_step st c) as [st' []]; [exact H|].
  simpl in H. apply andb_true_iff in H. apply IH, H.
Qed.

Lemma no_nul_deref c t : no_nul (String c t) = true -> Ascii.eqb c NUL = false.
Proof.
  simpl. intros H. apply andb_true_iff in H. destruct H as [H _].
  apply negb_true_iff in H. exact H.
Qed.

Lemma no_nul_next c t : no_nul (String c t) = true -> no_nul t = true.
Proof. simpl. intros H. apply andb_true_iff in H. apply H. Qed.

(** The count of the automaton, read off the scan to the next printable
    character. *)
Lemma dfa_strlen_skip st s :
  dfa_strlen st s
  = match dfa_skip st s with
    | EmptyString => 0
    | String _ t => 1 + dfa_strlen Ground t
    end.
Proof.
  revert st. induction s as [|c t IH]; intros st; [reflexivity|].
  cbn [dfa_strlen dfa_skip].
  destruct (esc_step st c) as [st' pr] eqn:Hs. destruct pr.
  - apply esc_step_printable in Hs. destruct Hs as [-> _]. reflexivity.
  - rewrite IH. lia.
Qed.

Lemma dfa_rawlen_skip st s l :
  0 <= l ->
  dfa_rawlen st s l
  = match dfa_skip st s with
    | EmptyString => strlen s
    | String c t =>
        if l =? 0 then strlen s - strlen (String c t)
        else strlen s - strlen t + dfa_rawlen Ground t (l - 1)
    end.
Proof.
  intros Hl. revert st. induction s as [|c t IH]; intros st; [reflexivity|].
  cbn [dfa_rawlen dfa_skip].
  destruct (esc_step st c) as [st' pr] eqn:Hs. destruct pr.
  - apply esc_step_printable in Hs. destruct Hs as [-> _].
    destruct (l =? 0); unfold strlen; simpl String.length; lia.
  - rewrite IH.
    pose proof (length_dfa_skip st' t) as Hlen.
    destruct (dfa_skip st' t) as [|c' t']; unfold strlen in *;
      simpl String.length in *; [lia|].
    destruct (l =? 0); lia.
Qed.

Lemma esc_strlen_loop_dfa fuel : forall p n,
  no_nul p = true -> (String.length p < fuel)%nat ->
  esc_strlen_loop fuel p n = n + dfa_strlen Ground p.
Proof.
  induction fuel as [|fuel IH]; intros p n Hnn Hlen; [lia|].
  cbn [esc_strlen_loop]. rewrite esc_skip_dfa, (dfa_strlen_skip Ground p).
  pose proof (length_dfa_skip Ground p) as Hl.
  pose proof (no_nul_dfa_skip Ground p Hnn) as Hq.
  destruct (dfa_skip Ground p) as [|c t]; [simpl; lia|].
  cbn [deref next]. rewrite (no_nul_deref _ _ Hq).
  rewrite IH; [lia | exact (no_nul_next _ _ Hq) | simpl in Hl; lia].
Qed.

(** Enough fuel: [esc_strlen] counts the printable characters. *)
Lemma esc_strlen_dfa s : no_nul s = true -> esc_strlen s = dfa_strlen Ground s.
Proof.
  intros H. unfold esc_strlen. rewrite esc_strlen_loop_dfa; [lia|exact H|lia].
Qed.

Lemma esc_rawlen_loop_dfa s l fuel : forall p n,
  no_nul p = true -> (String.length p < fuel)%nat -> n <= l ->
  esc_rawlen_loop fuel s p n l
  = strlen s - strlen p + dfa_rawlen Ground p (l - n).
Proof.
  induction fuel as [|fuel IH]; intros p n Hnn Hlen Hn; [lia|].
  cbn [esc_rawlen_loop].
  rewrite esc_skip_dfa, (dfa_rawlen_skip Ground p (l - n)) by lia.
  pose proof (length_dfa_skip Ground p) as Hl.
  pose proof (no_nul_dfa_skip Ground p Hnn) as Hq.
  destruct (dfa_skip Ground p) as [|c t].
  - cbn [deref]. rewrite orb_true_r. unfold ptr_diff, strlen. simpl. lia.
  - cbn [deref next]. rewrite (no_nul_deref _ _ Hq), orb_false_r.
    destruct (Z.eqb_spec n l) as [->|Hne].
    + rewrite Z.sub_diag. cbn [Z.eqb]. unfold ptr_diff. lia.
    + destruct (Z.eqb_spec (l - n) 0); [lia|].
      rewrite IH; [| exact (no_nul_next _ _ Hq) | simpl in Hl; lia | lia].
      replace (l - (n + 1)) with (l - n - 1) by lia. lia.
Qed.

(** Enough fuel: [esc_rawlen] is the offset of the printable character
    number [l]. *)
Lemma esc_rawlen_dfa s l :
  no_nul s = true -> 0 <= l -> esc_rawlen s l = dfa_rawlen Ground s l.
Proof.
  intros H Hl. unfold esc_rawlen.
  rewrite esc_rawlen_loop_dfa; [|exact H|lia|exact Hl].
  rewrite Z.sub_0_r. lia.
Qed.

Lemma esc_rawlen_loop_negative s l fuel : forall p n,
  no_nul p = true -> (String.length p < fuel)%nat -> l < n ->
  esc_rawlen_loop fuel s p n l = strlen s.
Proof.
  induction fuel as [|fuel IH]; intros p n Hnn Hlen Hn; [lia|].
  cbn [esc_rawlen_loop]. rewrite esc_skip_dfa.
  pose proof (length_dfa_skip Ground p) as Hl.
  pose proof (no_nul_dfa_skip Ground p Hnn) as Hq.
  destruct (Z.eqb_spec n l); [lia|]. cbn [orb].
  destruct (dfa_skip Ground p) as [|c t].
  - cbn [deref]. unfold ptr_diff, strlen. simpl. lia.
  - cbn [deref next]. rewrite (no_nul_deref _ _ Hq).
    apply IH; [exact (no_nul_next _ _ Hq) | simpl in Hl; lia | lia].
Qed.

(** With a negative count, the counter of [esc_rawlen] never meets it and
    the whole string is taken. *)
Lemma esc_rawlen_negative s l :
  no_nul s = true -> l < 0 -> esc_rawlen s l = strlen s.
Proof.
  intros H Hl. unfold esc_rawlen.
  apply esc_rawlen_loop_negative; [exact H|lia|lia].
Qed.

(* ================================================================== *)
(** ** Prefixes and the maximal raw length *)

Lemma dfa_strlen_nonneg st s : 0 <= dfa_strlen st s.
Proof.
  revert st. induction s as [|c t IH]; intros st; simpl; [lia|].
  destruct (esc_step st c) as [st' []]; specialize (IH st'); lia.
Qed.

Lemma dfa_rawlen_range st s l : 0 <= dfa_rawlen st s l <= strlen s.
Proof.
  revert st l. induction s as [|c t IH]; intros st l; unfold strlen in *;
    cbn [dfa_rawlen String.length]; [lia|].
  rewrite Nat2Z.inj_succ.
  destruct (esc_step st c) as [st' []].
  - destruct (l =? 0); [lia|]. specialize (IH st' (l - 1)). lia.
  - specialize (IH st' l). lia.
Qed.

Lemma no_nul_prefix k : forall s, no_nul s = true -> no_nul (prefix k s) = true.
Proof.
  induction k as [|k IH]; intros [|c t] H; simpl; try reflexivity.
  simpl in H. apply andb_true_iff in H. destruct H as [-> H].
  rewrite (IH _ H). reflexivity.
Qed.

Lemma to_nat_succ r : 0 <= r -> Z.to_nat (1 + r) = S (Z.to_nat r).
Proof. intros H. rewrite Z2Nat.inj_add by lia. reflexivity. Qed.

Lemma dfa_strlen_prefix_rawlen st s l :
  0 <= l <= dfa_strlen st s ->
  dfa_strlen st (prefix (Z.to_nat (dfa_rawlen st s l)) s) = l.
Proof.
  revert st l. induction s as [|c t IH]; intros st l Hl;
    cbn [dfa_strlen dfa_rawlen] in *; [simpl; lia|].
  destruct (esc_step st c) as [st' pr] eqn:Hs. destruct pr.
  - destruct (Z.eqb_spec l 0) as [->|Hne]; [reflexivity|].
    rewrite to_nat_succ by apply dfa_rawlen_range.
    cbn [prefix dfa_strlen]. rewrite Hs, IH; lia.
  - rewrite to_nat_succ by apply dfa_rawlen_range.
    cbn [prefix dfa_strlen]. rewrite Hs, IH; lia.
Qed.

Lemma dfa_rawlen_maximal st s l k :
  0 <= l -> (k <= String.length s)%nat ->
  dfa_strlen st (prefix k s) = l ->
  Z.of_nat k <= dfa_rawlen st s l.
Proof.
  revert st l k. induction s as [|c t IH]; intros st l k Hl Hk Hcount.
  - simpl in Hk. simpl. lia.
  - destruct k as [|k].
    + pose proof (dfa_rawlen_range st (String c t) l). lia.
    + cbn [prefix dfa_strlen dfa_rawlen] in *.
      destruct (esc_step st c) as [st' pr]. simpl in Hk.
      pose proof (dfa_strlen_nonneg st' (prefix k t)) as Hnn.
      destruct pr.
      * destruct (Z.eqb_spec l 0); [lia|].
        specialize (IH st' (l - 1) k). lia.
      * specialize (IH st' l k). lia.
Qed.

(** What follows the returned offset is not the start of an escape
    sequence. *)
Lemma dfa_rawlen_rest st s l :
  deref (skipn (Z.to_nat (dfa_rawlen st s l)) s) <> ESC.
Proof.
  revert st l. induction s as [|c t IH]; intros st l; [discriminate|].
  cbn [dfa_rawlen]. destruct (esc_step st c) as [st' pr] eqn:Hs.
  destruct pr.
  - destruct (l =? 0).
    + simpl. apply esc_step_printable in Hs. apply Hs.
    + rewrite to_nat_succ by apply dfa_rawlen_range.
      cbn [skipn]. apply IH.
  - rewrite to_nat_succ by apply dfa_rawlen_range.
    cbn [skipn]. apply IH.
Qed.

(* ================================================================== *)
(** ** Concatenation *)

Lemma dfa_strlen_app st a b :
  dfa_strlen st (a ++ b) = dfa_strlen st a + dfa_strlen (dfa_state st a) b.
Proof.
  revert st. induction a as [|c a IH]; intros st; simpl; [reflexivity|].
  destruct (esc_step st c) as [st' pr]. rewrite IH. simpl. lia.
Qed.

Lemma prefix_app a b : prefix (String.length a) (a ++ b) = a.
Proof.
  induction a as [|c a IH]; simpl; [destruct b|rewrite IH]; reflexivity.
Qed.

Lemma prefix_all s : prefix (String.length s) s = s.
Proof. induction s as [|c s IH]; simpl; [|rewrite IH]; reflexivity. Qed.

Lemma prefix_length_app a b c :
  prefix (String.length a + String.length b) (a ++ b ++ c) = a ++ b.
Proof.
  induction a as [|x a IH]; simpl; [apply prefix_app|].
  rewrite IH. reflexivity.
Qed.

Lemma no_nul_app a b : no_nul (a ++ b) = no_nul a && no_nul b.
Proof.
  induction a as [|c a IH]; simpl; [reflexivity|].
  rewrite IH, andb_assoc. reflexivity.
Qed.

Lemma dfa_params ps : forall rest,
  all_in_range 48 63 ps = true ->
  dfa_strlen Params (ps ++ rest) = dfa_strlen Params rest.
Proof.
  induction ps as [|c ps IH]; intros rest H; [reflexivity|].
  simpl in H. apply andb_true_iff in H. destruct H as [Hc H].
  cbn [append dfa_strlen]. unfold esc_step.
  destruct (Ascii.eqb_spec c ESC) as [->|_]; [discriminate Hc|].
  rewrite Hc, IH by assumption. lia.
Qed.

Lemma dfa_inters ib f : forall st,
  st = Params \/ st = Inters ->
  all_in_range 32 47 ib = true -> in_range 64 126 f = true ->
  dfa_strlen st (ib ++ String f EmptyString) = 0.
Proof.
  induction ib as [|c ib IH]; intros st Hst Hib Hf.
  - cbn [append dfa_strlen]. unfold esc_step.
    destruct (Ascii.eqb_spec f ESC) as [->|_]; [discriminate Hf|].
    destruct Hst as [-> | ->].
    + destruct (in_range 48 63 f) eqn:E1; [reflexivity|].
      destruct (in_range 32 47 f) eqn:E2; [reflexivity|].
      rewrite Hf. reflexivity.
    + destruct (in_range 32 47 f) eqn:E2; [reflexivity|].
      rewrite Hf. reflexivity.
  - simpl in Hib. apply andb_true_iff in Hib. destruct Hib as [Hc Hib].
    cbn [append dfa_strlen]. unfold esc_step.
    destruct (Ascii.eqb_spec c ESC) as [->|_]; [discriminate Hc|].
    destruct Hst as [-> | ->].
    + destruct (in_range 48 63 c) eqn:E1.
      * exfalso. revert Hc E1. unfold in_range.
        destruct (N_of_ascii c) as [|q]; [discriminate|].
        rewrite !andb_true_iff, !N.leb_le. lia.
      * rewrite Hc, IH; auto.
    + rewrite Hc, IH; auto.
Qed.

(** A CSI sequence holds no printable character, wherever it starts. *)
Lemma dfa_strlen_csi st ps ib f :
  is_csi ps ib f = true -> dfa_strlen st (csi_sequence ps ib f) = 0.
Proof.
  unfold is_csi, csi_sequence. rewrite !andb_true_iff.
  intros [[Hps Hib] Hf].
  cbn [dfa_strlen]. rewrite esc_step_ESC.
  replace (esc_step AfterEsc "[") with (Params, false) by reflexivity.
  rewrite dfa_params by assumption.
  rewrite dfa_inters; auto.
Qed.

(** The prefix up to the returned offset holds exactly [l] printable
    characters. *)
Lemma esc_rawlen_count s l :
  no_nul s = true -> 0 <= l <= esc_strlen s ->
  0 <= esc_rawlen s l <= strlen s
  /\ esc_strlen (prefix (Z.to_nat (esc_rawlen s l)) s) = l.
Proof.
  intros Hnn Hl.
  rewrite esc_strlen_dfa in Hl by assumption.
  rewrite esc_rawlen_dfa by (assumption || lia).
  split; [apply dfa_rawlen_range|].
  rewrite esc_strlen_dfa by (apply no_nul_prefix, Hnn).
  apply dfa_strlen_prefix_rawlen, Hl.
Qed.

(** C4.  For a string [s] and a count [l] of printable characters that [s]
    has, [esc_rawlen s l] is an offset into [s] whose prefix holds exactly
    [l] printable characters, and the largest such offset; what follows it
    does not start an escape sequence, and a CSI sequence that comes right
    after a part of [s] with [l] printable characters lies within the
    returned length. *)
Theorem esc_rawlen_maximal s l pre ps ib f rest :
  no_nul s = true -> 0 <= l <= esc_strlen s ->
  let r := esc_rawlen s l in
  0 <= r <= strlen s
  /\ esc_strlen (prefix (Z.to_nat r) s) = l
  /\ (forall k, (k <= String.length s)%nat ->
        esc_strlen (prefix k s) = l -> Z.of_nat k <= r)
  /\ deref (skipn (Z.to_nat r) s) <> ESC
  /\ (s = pre ++ csi_sequence ps ib f ++ rest ->
      is_csi ps ib f = true -> esc_strlen pre = l ->
      strlen pre + strlen (csi_sequence ps ib f) <= r).
Proof.
  intros Hnn Hl r. subst r.
  destruct (esc_rawlen_count s l Hnn Hl) as (Hrange & Hcount).
  split; [exact Hrange|]. split; [exact Hcount|].
  rewrite esc_rawlen_dfa in * by (assumption || lia).
  assert (Hmax : forall k, (k <= String.length s)%nat ->
            esc_strlen (prefix k s) = l ->
            Z.of_nat k <= dfa_rawlen Ground s l).
  { intros k Hk Hc. rewrite esc_strlen_dfa in Hc by (apply no_nul_prefix, Hnn).
    apply dfa_rawlen_maximal; [lia|assumption|assumption]. }
  split; [exact Hmax|].
  split; [apply dfa_rawlen_rest|].
  intros Hs Hcsi Hpre.
  unfold strlen. rewrite <- Nat2Z.inj_add. apply Hmax.
  - rewrite Hs, !length_append. lia.
  - rewrite Hs, prefix_length_app.
    rewrite Hs, !no_nul_app, !andb_true_iff in Hnn.
    destruct Hnn as (Hn1 & Hn2 & _).
    rewrite esc_strlen_dfa by (rewrite no_nul_app, Hn1, Hn2; reflexivity).
    rewrite dfa_strlen_app, dfa_strlen_csi by assumption.
    rewrite esc_strlen_dfa in Hpre by assumption. lia.
Qed.

Lemma esc_rawlen_maximal_witness :
  let s := "abc" ++ csi_sequence "7" EmptyString "m" ++ "fgh" in
  no_nul s = true
  /\ esc_strlen s = 6
  /\ esc_rawlen s 3 = 7
  /\ esc_strlen (prefix 7 s) = 3
  /\ (forall k, (k <= String.length s)%nat ->
        esc_strlen (prefix k s) = 3 -> Z.of_nat k <= esc_rawlen s 3).
Proof.
  intros s.
  split; [reflexivity|]. split; [reflexivity|]. split; [reflexivity|].
  split; [reflexivity|].
  apply (esc_rawlen_maximal s 3 "abc" "7" EmptyString "m"%char "fgh").
  - reflexivity.
  - vm_compute. split; discriminate.
Defined.

(** The examples of the source's comment. *)
Lemma esc_rawlen_examples :
  esc_rawlen ("abc" ++ String ESC "[7mfgh") 4 = 8
  /\ esc_rawlen ("abc" ++ String ESC "[7mfgh") 3 = 7.
Proof. split; reflexivity. Qed.

(* ================================================================== *)
(** ** The line written by [prgi_puts] *)

Lemma truncation_marker_count st :
  dfa_strlen st (">>>" ++ String ESC "[0m") <= 3.
Proof. destruct st; vm_compute; discriminate. Qed.

Lemma no_nul_marker : no_nul (">>>" ++ String ESC "[0m") = true.
Proof. reflexivity. Qed.

(** From a rendering width of 3 on, the line written holds at most that
    many printable characters. *)
Lemma puts_line_fits width s :
  no_nul s = true -> 3 <= width -> esc_strlen (puts_line width s) <= width.
Proof.
  intros Hnn Hw. unfold puts_line.
  destruct (Z.leb_spec (esc_strlen s) width) as [Hle|Hgt]; [exact Hle|].
  destruct (esc_rawlen_count s (width - 3) Hnn ltac:(lia)) as (Hr & Hcount).
  unfold fmt_prec_s.
  destruct (Z.ltb_spec (esc_rawlen s (width - 3)) 0) as [|_]; [lia|].
  set (p := prefix (Z.to_nat (esc_rawlen s (width - 3))) s) in *.
  assert (Hp : no_nul p = true) by apply no_nul_prefix, Hnn.
  rewrite esc_strlen_dfa by (rewrite no_nul_app, Hp; reflexivity).
  rewrite dfa_strlen_app.
  rewrite esc_strlen_dfa in Hcount by assumption.
  pose proof (truncation_marker_count (dfa_state Ground p)). lia.
Qed.

(** Below a rendering width of 3, a line that does not fit is written
    whole, with the marker after it. *)
Lemma puts_line_narrow width s :
  no_nul s = true -> width < 3 -> width < esc_strlen s ->
  puts_line width s = s ++ ">>>" ++ String ESC "[0m"
  /\ width < esc_strlen (puts_line width s).
Proof.
  intros Hnn Hw Hs. unfold puts_line.
  destruct (Z.leb_spec (esc_strlen s) width) as [|_]; [lia|].
  rewrite esc_rawlen_negative by (assumption || lia).
  unfold fmt_prec_s, strlen.
  destruct (Z.ltb_spec (Z.of_nat (String.length s)) 0) as [|_]; [lia|].
  rewrite Nat2Z.id.
  rewrite prefix_all.
  split; [reflexivity|].
  rewrite esc_strlen_dfa by (rewrite no_nul_app, Hnn; reflexivity).
  rewrite dfa_strlen_app. rewrite esc_strlen_dfa in Hs by assumption.
  pose proof (dfa_strlen_nonneg (dfa_state Ground s)
                (">>>" ++ String ESC "[0m")). lia.
Qed.

(** The rendering width a publish sets. *)
Lemma prgi_update___width clk tw th w :
  fst (fst (prgi_update__ clk tw th w)) = true ->
  let w' := snd (prgi_update__ clk tw th w) in
  prgi_width (prgi w') = tw
  /\ global_width (global w')
     = if MAXLINELEN + 2 <=? tw then MAXLINELEN else wrap_int (tw - 2).
Proof.
  unfold prgi_update__.
  match goal with |- context [negb ?c] => destruct c end;
    cbn [negb fst snd]; [|discriminate].
  intros _.
  match goal with |- context [prgi_clear ?x] =>
    destruct (prgi_clear_frame x) as (Hp & _ & Hg);
    set (w1 := prgi_clear x) in * end.
  cbn [prgi global] in Hp, Hg.
  assert (Hgw : global_width (global w1)
                = if MAXLINELEN + 2 <=? tw then MAXLINELEN
                  else wrap_int (tw - 2)) by (rewrite Hg; reflexivity).
  destruct (prgi_lock_on_update _); cbn [prgi_unlock set_global prgi global];
    rewrite ?Hp; cbn [prgi_width]; split; try reflexivity; exact Hgw.
Qed.

(** With a terminal of at least 5 and less than 258 columns, a line
    written after a publish holds at most the terminal width minus 2
    printable characters. *)
Lemma prgi_puts_line_fits_terminal clk tw th w s :
  fst (fst (prgi_update__ clk tw th w)) = true ->
  5 <= tw < MAXLINELEN + 2 -> no_nul s = true ->
  esc_strlen
    (puts_line (global_width (global (snd (prgi_update__ clk tw th w)))) s)
  <= tw - 2.
Proof.
  intros Hpub Htw Hnn.
  destruct (prgi_update___width clk tw th w Hpub) as (_ & Hw). rewrite Hw.
  unfold MAXLINELEN in *.
  destruct (Z.leb_spec (256 + 2) tw) as [|_]; [lia|].
  assert (Hwrap : wrap_int (tw - 2) = tw - 2).
  { unfold wrap_int. rewrite Z.mod_small; lia. }
  rewrite Hwrap. apply puts_line_fits; [assumption|lia].
Qed.

(** C9, at a terminal of 3 columns.  The publish sets the rendering width
    to 1; [valid_terminal] accepts the terminal; [prgi_puts("hello")]
    calls [esc_rawlen] with the count -2 and writes the whole of "hello"
    followed by the marker: 8 printable characters, with 1 allowed. *)
Theorem prgi_puts_narrow_terminal :
  let w := snd session_narrow in
  fst (fst session_narrow) = true
  /\ prgi_width (prgi w) = 3
  /\ global_width (global w) = 1
  /\ valid_terminal w = true
  /\ esc_rawlen "hello" (global_width (global w) - 3) = 5
  /\ tty (prgi_puts "hello" w)
     = "hello>>>" ++ String ESC "[0m" ++ String ESC "[3G"
  /\ esc_strlen (puts_line (global_width (global w)) "hello") = 8.
Proof. vm_compute. repeat split. Qed.

(* ================================================================== *)
(** ** The formatters *)

Lemma timehms_examples :
  timehms 32 (float_of_Z 61) = "1m01s"
  /\ timehms 32 (float_of_Z 3661) = "1h01m"
  /\ timehms 32 (float_of_Z 59) = "59s"
  /\ timehms 32 (float_of_Z 700000) = "7.00E+05s"
  /\ timehms 32 NAN = "?"
  /\ timehms 32 (S754_infinity false) = "?"
  /\ timehms 32 (float_of_Z (-1)) = "?".
Proof. vm_compute. repeat split. Qed.

(** C6, in the days and hours: 2 days and 5 hours are written with the
    hours unpadded and followed by the characters "02". *)
Theorem timehms_days_hours :
  timehms 32 (float_of_Z 190800) = "2d502h"
  /\ timehms 32 (float_of_Z 86400) = "1d002h".
Proof. vm_compute. split; reflexivity. Qed.

(** The same on every whole number of hours from one day to seven. *)
Lemma timehms_days_hours_all :
  forallb
    (fun k =>
       let h := Z.of_nat k + 24 in
       String.eqb (timehms 32 (float_of_Z (3600 * h)))
         (fmt_d (h / 24) ++ "d" ++ fmt_d (h mod 24) ++ "02h"))
    (seq 0 145) = true.
Proof. vm_compute. reflexivity. Qed.

Lemma sipref_examples :
  sipref 32 (double_of_Z 999) = "999"
  /\ sipref 32 (double_of_Z 1500) = "1.50K"
  /\ sipref 32 (double_of_Z (2 * 10 ^ 29)) = "200R"
  /\ sipref 32 (double_of_Z (10 ^ 33)) = "1E+33"
  /\ sipref 32 NAN = "?"
  /\ sipref 32 (double_of_Z (-1)) = "?".
Proof. vm_compute. repeat split. Qed.

(** C7, from 10^30 on: the value is written in scientific notation; the
    prefix Q is not attached. *)
Theorem sipref_beyond_R :
  sipref 32 (double_of_Z (10 ^ 30)) = "1E+30"
  /\ sipref 32 (double_of_Z (2 * 10 ^ 30)) = "2E+30"
  /\ sipref 32 (double_of_Z (999 * 10 ^ 30)) = "1E+33".
Proof. vm_compute. repeat split. Qed.

(** Whatever the value, the loop of [sipref] attaches one of K ... R or
    falls back to [%.2G]: the last entry of the table only bounds R. *)
Lemma sipref_loop_prefixes size x :
  sipref_loop size x pw = sprn size (fmt_G 2 x)
  \/ exists v p,
       In (v, p) pw_used
       /\ sipref_loop size x pw
          = sprn size (fmt_f (dec3 (f64_div x v)) (f64_div x v) ++ p).
Proof.
  unfold pw, pw_used. cbn [sipref_loop].
  repeat match goal with
         | |- context [if f_lt x ?v then _ else _] =>
             destruct (f_lt x v);
             [right; eexists; eexists; split; [|reflexivity];
              cbn [In]; tauto|]
         end.
  left. reflexivity.
Qed.

Lemma pw_used_no_Q :
  forallb (fun vp => negb (String.eqb (snd vp) "Q")) pw_used = true.
Proof. reflexivity. Qed.

(* ################################################################## *)
(** * Further properties *)

(* ================================================================== *)
(** ** More on the escape-aware text utilities *)

Lemma dfa_state_app st a b :
  dfa_state st (a ++ b) = dfa_state (dfa_state st a) b.
Proof.
  revert st. induction a as [|c a IH]; intros st; simpl; [reflexivity|].
  apply IH.
Qed.

Lemma dfa_plain s :
  has_esc s = false ->
  dfa_strlen Ground s = strlen s /\ dfa_state Ground s = Ground.
Proof.
  unfold strlen. induction s as [|c s IH]; intros H; [split; reflexivity|].
  cbn [has_esc] in H. apply orb_false_iff in H. destruct H as [Hc Hs].
  cbn [dfa_strlen dfa_state String.length]. unfold esc_step. rewrite Hc.
  cbn [fst]. destruct (IH Hs) as [IH1 IH2]. rewrite IH1, IH2.
  split; [lia|reflexivity].
Qed.

Lemma dfa_strlen_le st s : dfa_strlen st s <= strlen s.
Proof.
  unfold strlen. revert st. induction s as [|c s IH]; intros st;
    cbn [dfa_strlen String.length]; [lia|].
  rewrite Nat2Z.inj_succ.
  destruct (esc_step st c) as [st' []]; specialize (IH st'); lia.
Qed.

Lemma dfa_state_params ps : forall rest,
  all_in_range 48 63 ps = true ->
  dfa_state Params (ps ++ rest) = dfa_state Params rest.
Proof.
  induction ps as [|c ps IH]; intros rest H; [reflexivity|].
  simpl in H. apply andb_true_iff in H. destruct H as [Hc H].
  cbn [append dfa_state]. unfold esc_step.
  destruct (Ascii.eqb_spec c ESC) as [->|_]; [discriminate Hc|].
  rewrite Hc. cbn [fst]. apply IH, H.
Qed.

Lemma range_disjoint c :
  in_range 32 47 c = true -> in_range 48 63 c = false.
Proof.
  unfold in_range. destruct (N_of_ascii c) as [|q]; [discriminate|].
  rewrite andb_true_iff, andb_false_iff, !N.leb_le, !N.leb_gt. lia.
Qed.

Lemma dfa_state_inters ib f : forall st,
  st = Params \/ st = Inters ->
  all_in_range 32 47 ib = true -> in_range 64 126 f = true ->
  dfa_state st (ib ++ String f EmptyString) = Ground.
Proof.
  induction ib as [|c ib IH]; intros st Hst Hib Hf.
  - cbn [append dfa_state]. unfold esc_step.
    destruct (Ascii.eqb_spec f ESC) as [->|_]; [discriminate Hf|].
    destruct Hst as [-> | ->].
    + destruct (in_range 48 63 f) eqn:E1;
        [exfalso; revert Hf E1; unfold in_range;
         destruct (N_of_ascii f); [discriminate|];
         rewrite !andb_true_iff, !N.leb_le; lia|].
      destruct (in_range 32 47 f) eqn:E2;
        [exfalso; revert Hf E2; unfold in_range;
         destruct (N_of_ascii f); [discriminate|];
         rewrite !andb_true_iff, !N.leb_le; lia|].
      rewrite Hf. reflexivity.
    + destruct (in_range 32 47 f) eqn:E2;
        [exfalso; revert Hf E2; unfold in_range;
         destruct (N_of_ascii f); [discriminate|];
         rewrite !andb_true_iff, !N.leb_le; lia|].
      rewrite Hf. reflexivity.
  - simpl in Hib. apply andb_true_iff in Hib. destruct Hib as [Hc Hib].
    cbn [append dfa_state]. unfold esc_step.
    destruct (Ascii.eqb_spec c ESC) as [->|_]; [discriminate Hc|].
    destruct Hst as [-> | ->].
    + rewrite (range_disjoint c Hc), Hc. cbn [fst]. apply IH; auto.
    + rewrite Hc. cbn [fst]. apply IH; auto.
Qed.

(** After a CSI sequence the scan is back outside of any sequence. *)
Lemma dfa_state_csi st ps ib f :
  is_csi ps ib f = true -> dfa_state st (csi_sequence ps ib f) = Ground.
Proof.
  unfold is_csi, csi_sequence. rewrite !andb_true_iff.
  intros [[Hps Hib] Hf].
  cbn [dfa_state]. rewrite esc_step_ESC. cbn [fst].
  replace (esc_step AfterEsc "[") with (Params, false) by reflexivity.
  cbn [fst]. rewrite dfa_state_params by assumption.
  apply dfa_state_inters; auto.
Qed.

Lemma no_nul_split a b :
  no_nul (a ++ b) = true -> no_nul a = true /\ no_nul b = true.
Proof. rewrite no_nul_app. apply andb_true_iff. Qed.

(** X1.  [esc_strlen] never counts more than [strlen], and counts every
    character of a string without escape characters. *)
Theorem esc_strlen_bounds s :
  no_nul s = true ->
  0 <= esc_strlen s <= strlen s
  /\ (has_esc s = false -> esc_strlen s = strlen s).
Proof.
  intros Hnn. rewrite esc_strlen_dfa by assumption.
  split; [split; [apply dfa_strlen_nonneg | apply dfa_strlen_le]|].
  intros H. apply dfa_plain, H.
Qed.

Lemma esc_strlen_bounds_witness :
  no_nul ("50% " ++ String ESC "[7m##" ++ String ESC "[0m..") = true
  /\ esc_strlen ("50% " ++ String ESC "[7m##" ++ String ESC "[0m..") <= 16
  /\ esc_strlen "50% ##.." = 8.
Proof.
  split; [reflexivity|].
  split.
  - apply (esc_strlen_bounds
             ("50% " ++ String ESC "[7m##" ++ String ESC "[0m..")).
    reflexivity.
  - apply (esc_strlen_bounds "50% ##.."); reflexivity.
Defined.

(** X2.  A CSI sequence adds nothing to the printable length, wherever it
    is put in a string: the characters before it and the characters after
    it are counted as if it were not there. *)
Theorem esc_strlen_csi a ps ib f b :
  no_nul (a ++ csi_sequence ps ib f ++ b) = true ->
  is_csi ps ib f = true ->
  esc_strlen (a ++ csi_sequence ps ib f ++ b) = esc_strlen a + esc_strlen b.
Proof.
  intros Hnn Hcsi.
  destruct (no_nul_split _ _ Hnn) as [Ha Hrest].
  destruct (no_nul_split _ _ Hrest) as [_ Hb].
  rewrite !esc_strlen_dfa by assumption.
  rewrite !dfa_strlen_app, dfa_strlen_csi, dfa_state_csi by assumption.
  lia.
Qed.

Lemma esc_strlen_csi_witness :
  esc_strlen ("abc" ++ csi_sequence "1;31" EmptyString "m" ++ "def")
  = esc_strlen "abc" + esc_strlen "def".
Proof.
  apply (esc_strlen_csi "abc" "1;31" EmptyString "m"%char "def");
    reflexivity.
Defined.

Lemma dfa_skip_split st s :
  exists e, s = e ++ dfa_skip st s /\ dfa_strlen st e = 0.
Proof.
  revert st. induction s as [|c s IH]; intros st.
  - exists EmptyString. split; reflexivity.
  - cbn [dfa_skip]. destruct (esc_step st c) as [st' pr] eqn:Hs.
    destruct pr.
    + exists EmptyString. split; reflexivity.
    + destruct (IH st') as (e & He & Hc).
      exists (String c e). split.
      * cbn [append]. rewrite <- He. reflexivity.
      * cbn [dfa_strlen]. rewrite Hs, Hc. reflexivity.
Qed.

Lemma dfa_skip_head st s : deref (dfa_skip st s) <> ESC.
Proof.
  revert st. induction s as [|c s IH]; intros st; [discriminate|].
  cbn [dfa_skip]. destruct (esc_step st c) as [st' pr] eqn:Hs.
  destruct pr; [|apply IH].
  apply esc_step_printable in Hs. apply Hs.
Qed.

Lemma dfa_skip_ground_fix s : deref s <> ESC -> dfa_skip Ground s = s.
Proof.
  destruct s as [|c s]; [reflexivity|]. cbn [deref dfa_skip]. intros H.
  unfold esc_step. destruct (Ascii.eqb_spec c ESC); [contradiction|].
  reflexivity.
Qed.

(** X3.  [esc_skip] drops a part of the string that holds no printable
    character and stops on a character other than the escape character (or
    on the terminator); it does nothing when applied again and leaves the
    printable length as it was. *)
Theorem esc_skip_spec p :
  no_nul p = true ->
  (exists e, p = e ++ esc_skip p /\ esc_strlen e = 0)
  /\ deref (esc_skip p) <> ESC
  /\ esc_skip (esc_skip p) = esc_skip p
  /\ esc_strlen (esc_skip p) = esc_strlen p.
Proof.
  intros Hnn. rewrite !esc_skip_dfa.
  pose proof (dfa_skip_head Ground p) as Hhead.
  destruct (dfa_skip_split Ground p) as (e & He & Hc).
  assert (Hq : no_nul (dfa_skip Ground p) = true)
    by (apply no_nul_dfa_skip, Hnn).
  split.
  { exists e. split; [exact He|].
    rewrite He in Hnn. destruct (no_nul_split _ _ Hnn) as [Hne _].
    rewrite esc_strlen_dfa by assumption. exact Hc. }
  split; [exact Hhead|].
  split; [apply dfa_skip_ground_fix, Hhead|].
  rewrite !esc_strlen_dfa by assumption.
  rewrite (dfa_strlen_skip Ground p), (dfa_strlen_skip Ground (dfa_skip _ _)).
  rewrite (dfa_skip_ground_fix _ Hhead). reflexivity.
Qed.

Lemma esc_skip_spec_witness :
  esc_skip (String ESC "[7m" ++ String ESC "[1mab") = "ab"
  /\ esc_skip (esc_skip (String ESC "[7m" ++ String ESC "[1mab"))
     = esc_skip (String ESC "[7m" ++ String ESC "[1mab").
Proof.
  split; [reflexivity|].
  apply (esc_skip_spec (String ESC "[7m" ++ String ESC "[1mab")).
  reflexivity.
Defined.

Lemma dfa_rawlen_saturates st s : forall l,
  dfa_strlen st s <= l -> dfa_rawlen st s l = strlen s.
Proof.
  unfold strlen. revert st. induction s as [|c s IH]; intros st l Hl;
    cbn [dfa_rawlen dfa_strlen String.length] in *; [reflexivity|].
  rewrite Nat2Z.inj_succ.
  destruct (esc_step st c) as [st' pr]. destruct pr.
  - pose proof (dfa_strlen_nonneg st' s).
    destruct (Z.eqb_spec l 0); [lia|]. rewrite IH; lia.
  - rewrite IH; lia.
Qed.

Lemma dfa_rawlen_mono st s : forall l1 l2,
  0 <= l1 <= l2 -> dfa_rawlen st s l1 <= dfa_rawlen st s l2.
Proof.
  revert st. induction s as [|c s IH]; intros st l1 l2 Hl;
    cbn [dfa_rawlen]; [lia|].
  destruct (esc_step st c) as [st' pr]. destruct pr.
  - destruct (Z.eqb_spec l1 0), (Z.eqb_spec l2 0); try lia.
    + pose proof (dfa_rawlen_range st' s (l2 - 1)). lia.
    + specialize (IH st' (l1 - 1) (l2 - 1)). lia.
  - specialize (IH st' l1 l2). lia.
Qed.

(** X4.  [esc_rawlen] grows with the count of printable characters asked
    for, and is the length of the whole string as soon as the count is not
    below the printable length (or is negative). *)
Theorem esc_rawlen_mono_saturates s l1 l2 l3 :
  no_nul s = true -> 0 <= l1 <= l2 -> l3 < 0 ->
  esc_rawlen s l1 <= esc_rawlen s l2
  /\ (esc_strlen s <= l2 -> esc_rawlen s l2 = strlen s)
  /\ esc_rawlen s l3 = strlen s.
Proof.
  intros Hnn Hl Hl3.
  rewrite esc_strlen_dfa by assumption.
  rewrite !(esc_rawlen_dfa s l1), !(esc_rawlen_dfa s l2)
    by (assumption || lia).
  split; [apply dfa_rawlen_mono, Hl|].
  split; [apply dfa_rawlen_saturates|].
  apply esc_rawlen_negative; assumption.
Qed.

Lemma esc_rawlen_mono_saturates_witness :
  esc_rawlen ("ab" ++ String ESC "[7mcd") 1
  <= esc_rawlen ("ab" ++ String ESC "[7mcd") 4
  /\ esc_rawlen ("ab" ++ String ESC "[7mcd") 4 = 8
  /\ esc_rawlen ("ab" ++ String ESC "[7mcd") (-2) = 8.
Proof.
  pose proof (esc_rawlen_mono_saturates ("ab" ++ String ESC "[7mcd") 1 4
                (-2) eq_refl ltac:(lia) ltac:(lia)) as (H1 & H2 & H3).
  split; [exact H1|]. split; [|exact H3]. apply H2. vm_compute. discriminate.
Defined.

(* ================================================================== *)
(** ** The terminal renderer *)

Lemma append_assoc (a b c : string) : (a ++ b) ++ c = a ++ b ++ c.
Proof. induction a as [|x a IH]; simpl; [|rewrite IH]; reflexivity. Qed.

Lemma clear_loop_tty fuel : forall w,
  0 <= global_printed_lines (global w) <= INT_MAX ->
  (Z.to_nat (global_printed_lines (global w)) <= fuel)%nat ->
  tty (clear_loop fuel w)
  = tty w
    ++ repeat_string erase_up (Z.to_nat (global_printed_lines (global w))).
Proof.
  induction fuel as [|fuel IH]; intros w Hn Hf; cbn [clear_loop].
  - replace (Z.to_nat (global_printed_lines (global w))) with O by lia.
    cbn [repeat_string]. rewrite append_nil_r. reflexivity.
  - destruct (Z.eqb_spec (global_printed_lines (global w)) 0) as [H0|H0].
    + rewrite H0. cbn [Z.to_nat repeat_string].
      rewrite append_nil_r. reflexivity.
    + assert (Hw : wrap_int (global_printed_lines (global w) - 1)
                   = global_printed_lines (global w) - 1).
      { apply wrap_int_id. unfold in_int, INT_MIN, INT_MAX in *. lia. }
      rewrite IH;
        cbn [fputs set_global global tty with_printed_lines
             global_printed_lines]; rewrite ?Hw; try lia.
      replace (Z.to_nat (global_printed_lines (global w)))
        with (S (Z.to_nat (global_printed_lines (global w) - 1))) by lia.
      cbn [repeat_string]. rewrite !append_assoc. reflexivity.
Qed.

Lemma prgi_clear_tty w :
  0 <= global_printed_lines (global w) <= INT_MAX ->
  tty (prgi_clear w)
  = tty w
    ++ (if (global_printed_lines (global w) =? 0)
           || negb (valid_terminal w)
        then EmptyString
        else erase_first
             ++ repeat_string erase_up
                  (Z.to_nat (global_printed_lines (global w) - 1))).
Proof.
  intros Hn. unfold prgi_clear.
  destruct (Z.eqb_spec (global_printed_lines (global w)) 0) as [H0|H0];
    cbn [orb]; [rewrite append_nil_r; reflexivity|].
  destruct (negb (valid_terminal w));
    [cbn [set_global tty]; rewrite append_nil_r; reflexivity|].
  assert (Hw : wrap_int (global_printed_lines (global w) - 1)
               = global_printed_lines (global w) - 1).
  { apply wrap_int_id. unfold in_int, INT_MIN, INT_MAX in *. lia. }
  rewrite clear_loop_tty;
    cbn [fputs set_global global tty with_printed_lines
         global_printed_lines]; rewrite ?Hw; try lia.
  rewrite append_assoc. reflexivity.
Qed.

(** X5.  [prgi_clear] brings the count of printed lines to zero and leaves
    the snapshot alone.  On a valid terminal with [n > 0] lines printed it
    writes a carriage return and a line erase, then [n - 1] times
    cursor-up and line erase; otherwise it writes nothing.  A second call
    does nothing. *)
Theorem prgi_clear_spec w :
  0 <= global_printed_lines (global w) <= INT_MAX ->
  global_printed_lines (global (prgi_clear w)) = 0
  /\ prgi (prgi_clear w) = prgi w
  /\ tty (prgi_clear w)
     = tty w
       ++ (if (global_printed_lines (global w) =? 0)
              || negb (valid_terminal w)
           then EmptyString
           else erase_first
                ++ repeat_string erase_up
                     (Z.to_nat (global_printed_lines (global w) - 1)))
  /\ prgi_clear (prgi_clear w) = prgi_clear w.
Proof.
  intros Hn.
  pose proof (prgi_clear_lines w Hn) as Hz.
  split; [exact Hz|]. split; [apply prgi_clear_frame|].
  split; [apply prgi_clear_tty; exact Hn|].
  unfold prgi_clear at 1. rewrite Hz. reflexivity.
Qed.

Lemma prgi_clear_spec_witness :
  let w := puts_all ["one"; "two"; "three"] (snd session_A1) in
  global_printed_lines (global w) = 3
  /\ global_printed_lines (global (prgi_clear w)) = 0
  /\ tty (prgi_clear w) = tty w ++ erase_first ++ erase_up ++ erase_up.
Proof.
  intros w. split; [reflexivity|].
  pose proof (prgi_clear_spec w) as H.
  split; [apply H; vm_compute; split; discriminate|].
  destruct H as (_ & _ & H & _); [vm_compute; split; discriminate|].
  rewrite H. reflexivity.
Defined.

Lemma prgi_puts_valid s w :
  valid_terminal w = true ->
  0 <= global_printed_lines (global w) < INT_MAX ->
  valid_terminal (prgi_puts s w) = true
  /\ global_width (global (prgi_puts s w)) = global_width (global w)
  /\ global_printed_lines (global (prgi_puts s w))
     = global_printed_lines (global w) + 1
  /\ tty (prgi_puts s w)
     = tty w
       ++ (if global_printed_lines (global w) =? 0 then EmptyString
           else String LF EmptyString)
       ++ puts_line (global_width (global w)) s
       ++ park (prgi_width (prgi w)).
Proof.
  intros Hv Hn. unfold prgi_puts. rewrite Hv. cbn [negb].
  assert (Hw : wrap_int (global_printed_lines (global w) + 1)
               = global_printed_lines (global w) + 1).
  { apply wrap_int_id. unfold in_int, INT_MIN, INT_MAX in *. lia. }
  destruct (global_printed_lines (global w) =? 0);
    cbn [fputs set_global global prgi tty with_printed_lines
         global_printed_lines global_width];
    rewrite Hw; unfold park;
    (split; [exact Hv|]); (split; [reflexivity|]); (split; [reflexivity|]);
    rewrite ?append_assoc, ?append_nil_r; reflexivity.
Qed.

Lemma puts_all_spec ss : forall w,
  valid_terminal w = true ->
  0 <= global_printed_lines (global w) ->
  global_printed_lines (global w) + Z.of_nat (List.length ss) <= INT_MAX ->
  valid_terminal (puts_all ss w) = true
  /\ prgi (puts_all ss w) = prgi w
  /\ global_printed_lines (global (puts_all ss w))
     = global_printed_lines (global w) + Z.of_nat (List.length ss)
  /\ tty (puts_all ss w)
     = tty w
       ++ puts_bytes (global_width (global w)) (prgi_width (prgi w))
            (global_printed_lines (global w)) ss.
Proof.
  induction ss as [|s ss IH]; intros w Hv Hn Hmax.
  - cbn [puts_all fold_left puts_bytes List.length].
    rewrite append_nil_r. repeat split; [assumption|lia].
  - cbn [List.length] in Hmax. rewrite Nat2Z.inj_succ in Hmax.
    destruct (prgi_puts_valid s w Hv ltac:(lia)) as (Hv1 & Hw1 & Hn1 & Ht1).
    pose proof (prgi_puts_prgi s w) as Hp1.
    change (puts_all (s :: ss) w) with (puts_all ss (prgi_puts s w)).
    destruct (IH (prgi_puts s w) Hv1 ltac:(lia) ltac:(lia))
      as (Hv2 & Hp2 & Hn2 & Ht2).
    split; [exact Hv2|]. split; [rewrite Hp2; exact Hp1|].
    split; [rewrite Hn2, Hn1; cbn [List.length]; lia|].
    rewrite Ht2, Ht1, Hw1, Hp1, Hn1. cbn [puts_bytes].
    rewrite !append_assoc. reflexivity.
Qed.

(** X6.  Lines written by successive calls of [prgi_puts] on a valid
    terminal are each followed by the cursor parking sequence and
    separated by one newline; the count of printed lines grows by one per
    call; and [prgi_clear] afterwards erases the current line and moves up
    once per other line, bringing the count back to zero. *)
Theorem prgi_puts_then_clear ss w :
  valid_terminal w = true ->
  global_printed_lines (global w) = 0 ->
  Z.of_nat (List.length ss) <= INT_MAX ->
  let w' := puts_all ss w in
  global_printed_lines (global w') = Z.of_nat (List.length ss)
  /\ tty w'
     = tty w
       ++ puts_bytes (global_width (global w)) (prgi_width (prgi w)) 0 ss
  /\ global_printed_lines (global (prgi_clear w')) = 0
  /\ tty (prgi_clear w')
     = tty w'
       ++ match ss with
          | [] => EmptyString
          | _ :: ss' =>
              erase_first ++ repeat_string erase_up (List.length ss')
          end.
Proof.
  intros Hv H0 Hlen w'.
  destruct (puts_all_spec ss w Hv ltac:(lia) ltac:(lia))
    as (Hv' & Hp' & Hn' & Ht').
  fold w' in Hv', Hp', Hn', Ht'. rewrite H0 in Hn', Ht'.
  cbn [Z.add] in Hn'.
  pose proof (prgi_clear_lines w' ltac:(lia)) as Hc0.
  pose proof (prgi_clear_tty w' ltac:(lia)) as Hct.
  split; [exact Hn'|]. split; [exact Ht'|]. split; [exact Hc0|].
  rewrite Hct, Hn', Hv'. cbn [negb].
  destruct ss as [|s ss']; [reflexivity|].
  cbn [List.length]. rewrite Nat2Z.inj_succ.
  destruct (Z.eqb_spec (Z.succ (Z.of_nat (List.length ss'))) 0); [lia|].
  cbn [orb]. replace (Z.to_nat (Z.succ (Z.of_nat (List.length ss')) - 1))
    with (List.length ss') by lia.
  reflexivity.
Qed.

Lemma prgi_puts_then_clear_witness :
  let w := snd session_A1 in
  let w' := puts_all ["10%"; "eta 9s"] w in
  valid_terminal w = true
  /\ tty w' = "10%" ++ park 80 ++ String LF "eta 9s" ++ park 80
  /\ tty (prgi_clear w') = tty w' ++ erase_first ++ erase_up.
Proof.
  intros w w'. split; [reflexivity|].
  pose proof (prgi_puts_then_clear ["10%"; "eta 9s"] w eq_refl eq_refl) as H.
  cbv zeta in H. fold w' in H.
  destruct H as (_ & H1 & _ & H2); [vm_compute; discriminate|].
  split; [rewrite H1; reflexivity | rewrite H2; reflexivity].
Defined.

(* ================================================================== *)
(** ** Without a terminal *)

Lemma prgi_update___tty_no_terminal clk tw th w :
  tw < 3 -> tty (snd (prgi_update__ clk tw th w)) = tty w.
Proof.
  intros Htw. unfold prgi_update__.
  match goal with |- context [negb ?c] => destruct c end;
    cbn [negb fst snd]; [|destruct w as [p [] b t]; reflexivity].
  match goal with |- context [prgi_clear ?x] =>
    assert (Hc : tty (prgi_clear x) = tty w) end.
  { unfold prgi_clear.
    match goal with |- context [global_printed_lines ?g =? 0] =>
      destruct (global_printed_lines g =? 0) end; [reflexivity|].
    unfold valid_terminal. cbn [prgi prgi_width prgi_output].
    destruct (Z.leb_spec 3 tw); [lia|]. rewrite andb_false_r.
    reflexivity. }
  destruct (prgi_lock_on_update _); cbn [prgi_unlock set_global tty];
    exact Hc.
Qed.

Lemma prgi_update___width_frame clk tw th w :
  prgi_width (prgi (snd (prgi_update__ clk tw th w))) = tw
  \/ prgi_width (prgi (snd (prgi_update__ clk tw th w)))
     = prgi_width (prgi w).
Proof.
  destruct (fst (fst (prgi_update__ clk tw th w))) eqn:Hr.
  - left. apply (prgi_update___width clk tw th w Hr).
  - right. destruct (prgi_update___quiet clk tw th w Hr) as (Hp & _).
    rewrite Hp. reflexivity.
Qed.

Lemma bar_doit_tty len w : tty (snd (bar_doit len w)) = tty w.
Proof.
  unfold bar_doit. destruct (len <=? 0); [reflexivity|].
  destruct (negb (Ascii.eqb (bar_fill1 (bar w)) NUL)); [reflexivity|].
  destruct (bar_fill (bar w) (bar_len len) (bar_len len)); [|reflexivity].
  destruct (0 <=? bar_filled (bar_len len) (prgi_progress (prgi w)));
    reflexivity.
Qed.

Lemma exec_no_terminal c st :
  no_terminal c ->
  prgi_width (prgi (shared_state st)) < 3 ->
  prgi_width (prgi (shared_state (snd (exec c st)))) < 3
  /\ tty (shared_state (snd (exec c st))) = tty (shared_state st).
Proof.
  intros Hc Hw.
  assert (Hinv : valid_terminal (shared_state st) = false).
  { unfold valid_terminal.
    destruct (Z.leb_spec 3 (prgi_width (prgi (shared_state st)))); [lia|].
    apply andb_false_r. }
  destruct c as [t total|t inc clk tw|s| |len f0 f1|]; cbn [exec no_terminal]
    in *.
  - split; [exact Hw|reflexivity].
  - unfold prgi_update.
    match goal with |- context [if ?c then _ else _] => destruct c end;
      cbn [snd shared_state]; [|split; [exact Hw|reflexivity]].
    match goal with |- context [prgi_update__ clk tw ?t ?w] =>
      pose proof (prgi_update___tty_no_terminal clk tw t w Hc) as Ht;
      pose proof (prgi_update___width_frame clk tw t w) as Hwd;
      destruct (prgi_update__ clk tw t w) as [[r th'] w'] end.
    cbn [snd shared_state] in *. split; [|exact Ht].
    destruct Hwd as [-> | ->]; assumption.
  - cbn [snd shared_state]. rewrite prgi_puts_prgi.
    split; [exact Hw|]. unfold prgi_puts. rewrite Hinv. reflexivity.
  - cbn [snd shared_state].
    destruct (prgi_clear_frame (shared_state st)) as (Hp & _).
    rewrite Hp. split; [exact Hw|]. unfold prgi_clear.
    destruct (global_printed_lines (global (shared_state st)) =? 0);
      [reflexivity|]. rewrite Hinv. reflexivity.
  - cbn [snd shared_state]. unfold prgi_bar. rewrite bar_doit_prgi.
    split; [exact Hw|]. rewrite bar_doit_tty. reflexivity.
  - split; [exact Hw|reflexivity].
Qed.

(** X7.  When every terminal width read is below 3 (the output is not a
    terminal, or is too narrow), no call writes anything, from [prgi_init]
    on: not [prgi_puts], not [prgi_clear], not a publishing
    [prgi_update]. *)
Theorem silent_without_terminal clk total w cs :
  Forall no_terminal cs ->
  tty (shared_state (snd (exec_all cs (after_init clk total w)))) = tty w.
Proof.
  intros Hcs.
  assert (Hgen : forall st,
             prgi_width (prgi (shared_state st)) < 3 ->
             tty (shared_state (snd (exec_all cs st)))
             = tty (shared_state st)).
  { induction Hcs as [|c cs Hc Hcs IH]; intros st Hw; [reflexivity|].
    cbn [exec_all].
    destruct (exec_no_terminal c st Hc Hw) as (Hw1 & Ht1).
    destruct (exec c st) as [r st1]. cbn [snd] in *.
    specialize (IH st1 Hw1).
    destruct (exec_all cs st1) as [r' st2]. cbn [snd] in *.
    rewrite IH. exact Ht1. }
  rewrite Hgen; [reflexivity|]. cbn. lia.
Qed.

Lemma silent_without_terminal_witness :
  let cs := [Call_update 0 1 session_clk1 (-1); Call_puts "10%";
             Call_update 0 9 session_clk2 (-1); Call_puts "100%";
             Call_clear] in
  fst (exec_all cs (after_init session_clk0 10 shared_static)) = true
  /\ tty (shared_state
            (snd (exec_all cs (after_init session_clk0 10 shared_static))))
     = EmptyString.
Proof.
  intros cs. split; [vm_compute; reflexivity|].
  apply (silent_without_terminal session_clk0 10 shared_static cs).
  unfold cs. repeat constructor; cbn [no_terminal]; lia.
Defined.

(* ================================================================== *)
(** ** The aggregate counters *)

Lemma wrap_long_add_l a b : wrap_long (wrap_long a + b) = wrap_long (a + b).
Proof.
  unfold wrap_long.
  replace ((a + 2 ^ 63) mod 2 ^ 64 - 2 ^ 63 + b + 2 ^ 63)
    with ((a + 2 ^ 63) mod 2 ^ 64 + b) by lia.
  rewrite Zplus_mod_idemp_l. f_equal. f_equal. lia.
Qed.

Lemma wrap_long_add_r a b : wrap_long (a + wrap_long b) = wrap_long (a + b).
Proof. rewrite Z.add_comm, wrap_long_add_l. f_equal. lia. Qed.

Lemma sum_over_cons f ths t ids :
  sum_over f ths (t :: ids) = f (ths t) + sum_over f ths ids.
Proof. reflexivity. Qed.

Lemma set_thread_same t th ths : set_thread t th ths t = th.
Proof. unfold set_thread. rewrite Nat.eqb_refl. reflexivity. Qed.

Lemma sum_over_fresh f ths t th ids :
  ~ In t ids -> sum_over f (set_thread t th ths) ids = sum_over f ths ids.
Proof.
  induction ids as [|t' ids IH]; intros Hin; [reflexivity|].
  cbn [sum_over fold_right] in *. unfold set_thread at 1.
  destruct (Nat.eqb_spec t' t) as [->|_]; [exfalso; apply Hin; now left|].
  f_equal. apply IH. intros H. apply Hin. now right.
Qed.

Lemma sum_over_update f ths t th ids :
  NoDup ids -> In t ids ->
  sum_over f (set_thread t th ths) ids
  = sum_over f ths ids - f (ths t) + f th.
Proof.
  induction ids as [|t' ids IH]; intros Hnd Hin; [contradiction|].
  inversion Hnd as [|? ? Hnotin Hnd']; subst.
  cbn [sum_over fold_right]. unfold set_thread at 1.
  destruct (Nat.eqb_spec t' t) as [->|Hne].
  - fold (sum_over f (set_thread t th ths) ids).
    rewrite sum_over_fresh by assumption.
    fold (sum_over f ths ids). lia.
  - destruct Hin as [->|Hin]; [contradiction|].
    fold (sum_over f (set_thread t th ths) ids).
    rewrite IH by assumption. fold (sum_over f ths ids). lia.
Qed.

(** What one call of [prgi_update] does to the counters. *)
Lemma prgi_update_counters inc clk tw th w S :
  global_count (global w) = wrap_long S ->
  let r := prgi_update inc clk tw th w in
  thread_total (snd (fst r)) = thread_total th
  /\ global_total (global (snd r)) = global_total (global w)
  /\ global_count (global (snd r))
     = wrap_long (S + (thread_last_count (snd (fst r))
                       - thread_last_count th)).
Proof.
  intros HS. cbv zeta. unfold prgi_update.
  set (th1 := with_count (wrap_long (thread_count th + inc)) th).
  destruct (thread_mark th1 <=? thread_count th1).
  - destruct (prgi_update___result clk tw th1 w) as (_ & Hth & Hc).
    rewrite Hth, Hc. cbn [update_mark thread_total thread_last_count].
    split; [reflexivity|]. split.
    + unfold prgi_update__.
      match goal with |- context [negb ?c] => destruct c end;
        cbn [negb fst snd].
      * match goal with |- context [prgi_clear ?x] =>
          destruct (prgi_clear_frame x) as (_ & _ & Hg);
          set (w1 := prgi_clear x) in * end.
        destruct (prgi_lock_on_update _);
          cbn [prgi_unlock set_global global]; rewrite Hg;
          destruct w as [p [] b t]; reflexivity.
      * destruct w as [p [] b t]; reflexivity.
    + subst th1. cbn [with_count thread_count thread_last_count].
      rewrite HS, wrap_long_add_l, wrap_long_add_r. reflexivity.
  - cbn [fst snd]. subst th1. cbn [with_count thread_total thread_last_count].
    split; [reflexivity|]. split; [reflexivity|].
    rewrite Z.sub_diag, Z.add_0_r. exact HS.
Qed.

Lemma exec_aggregate c st ids :
  aggregate_inv ids st -> disciplined ids [c] ->
  aggregate_inv (registered ids [c]) (snd (exec c st)).
Proof.
  intros (Hnd & Hc & Ht) Hd. unfold aggregate_inv.
  destruct c as [t total|t inc clk tw|s| |len f0 f1|];
    cbn [exec registered disciplined snd] in *.
  - destruct Hd as [Hfresh _].
    split; [constructor; assumption|].
    unfold prgi_init_thread. cbn [snd shared_state threads].
    rewrite !sum_over_cons, !set_thread_same, !sum_over_fresh by assumption.
    cbn [thread_last_count thread_total].
    destruct st as [ths [p [] b ty]]. cbn in *.
    split; [exact Hc|].
    rewrite Ht, wrap_long_add_l. f_equal. lia.
  - destruct Hd as [Hin _].
    pose proof (prgi_update_counters inc clk tw (threads st t)
                  (shared_state st) _ Hc) as H. cbv zeta in H.
    destruct (prgi_update inc clk tw (threads st t) (shared_state st))
      as [[r th'] w']. cbn [fst snd shared_state threads] in *.
    destruct H as (Htt & Hgt & Hgc).
    split; [exact Hnd|].
    rewrite !sum_over_update by assumption.
    split; [rewrite Hgc; f_equal; lia|].
    rewrite Hgt, Ht, Htt. f_equal. lia.
  - split; [exact Hnd|]. cbn [shared_state threads].
    unfold prgi_puts. destruct (negb (valid_terminal (shared_state st)));
      [split; assumption|].
    destruct (global_printed_lines (global (shared_state st)) =? 0);
      destruct st as [ths [p [] b ty]]; cbn in *; split; assumption.
  - split; [exact Hnd|]. cbn [shared_state threads].
    destruct (prgi_clear_frame (shared_state st)) as (_ & _ & Hg).
    rewrite Hg. destruct st as [ths [p [] b ty]]. cbn in *.
    split; assumption.
  - split; [exact Hnd|]. cbn [shared_state threads].
    unfold prgi_bar, bar_doit. destruct (len <=? 0);
      [destruct st as [ths [p [] b ty]]; cbn in *; split; assumption|].
    cbn [set_bar bar prgi].
    match goal with |- context [if ?c then _ else _] => destruct c end;
      [destruct st as [ths [p [] b ty]]; cbn in *; split; assumption|].
    match goal with |- context [bar_fill ?b ?n ?l] =>
      destruct (bar_fill b n l) end;
      [|destruct st as [ths [p [] b ty]]; cbn in *; split; assumption].
    match goal with |- context [0 <=? ?n] => destruct (0 <=? n) end;
      destruct st as [ths [p [] b ty]]; cbn in *; split; assumption.
  - split; [exact Hnd|]. destruct st as [ths [p [] b ty]]. cbn in *.
    split; assumption.
Qed.

Lemma exec_all_aggregate cs : forall st ids,
  aggregate_inv ids st -> disciplined ids cs ->
  aggregate_inv (registered ids cs) (snd (exec_all cs st)).
Proof.
  induction cs as [|c cs IH]; intros st ids Hinv Hd; [exact Hinv|].
  cbn [exec_all].
  assert (Hd1 : disciplined ids [c]).
  { destruct c; cbn [disciplined] in *; tauto. }
  assert (Hd2 : disciplined (registered ids [c]) cs).
  { destruct c; cbn [disciplined registered] in *; tauto. }
  pose proof (exec_aggregate c st ids Hinv Hd1) as H1.
  destruct (exec c st) as [r st1]. cbn [snd] in H1.
  specialize (IH st1 _ H1 Hd2).
  destruct (exec_all cs st1) as [r' st2]. cbn [snd] in *.
  replace (registered ids (c :: cs)) with (registered (registered ids [c]) cs)
    by (destruct c; reflexivity).
  exact IH.
Qed.

Lemma after_init_aggregate clk total w :
  aggregate_inv [0%nat] (after_init clk total w).
Proof.
  split; [repeat constructor; intros []|].
  cbn. rewrite Z.add_0_r. split; reflexivity.
Qed.

(** X8.  In a program where each thread calls [prgi_init_thread] once
    before it calls [prgi_update], after any sequence of calls the global
    count is the sum (in [long] arithmetic) of the counts the registered
    threads have synchronized, and the global total the sum of their
    totals; so once every thread has synchronized at its total, the global
    count equals the global total. *)
Theorem aggregate_counters clk total w cs :
  disciplined [0%nat] cs ->
  let st := snd (exec_all cs (after_init clk total w)) in
  let ids := registered [0%nat] cs in
  global_count (global (shared_state st))
  = wrap_long (sum_over thread_last_count (threads st) ids)
  /\ global_total (global (shared_state st))
     = wrap_long (sum_over thread_total (threads st) ids)
  /\ ((forall t, In t ids ->
         thread_last_count (threads st t) = thread_total (threads st t)) ->
      global_count (global (shared_state st))
      = global_total (global (shared_state st))).
Proof.
  intros Hd st ids.
  destruct (exec_all_aggregate cs _ _ (after_init_aggregate clk total w) Hd)
    as (_ & Hc & Ht).
  fold st in Hc, Ht. fold ids in Hc, Ht.
  split; [exact Hc|]. split; [exact Ht|].
  intros Hdone. rewrite Hc, Ht. f_equal.
  clear Hc Ht. induction ids as [|t ids IH]; [reflexivity|].
  rewrite !sum_over_cons, IH.
  - rewrite (Hdone t) by now left. reflexivity.
  - intros t' Ht'. apply Hdone. now right.
Qed.

Lemma aggregate_counters_witness :
  let cs := [Call_init_thread 1 2; Call_update 0 1 session_clk1 80;
             Call_update 1 2 session_clk2 80;
             Call_update 0 1 session_clk2 80] in
  let st := snd (exec_all cs (after_init session_clk0 2 shared_static)) in
  registered [0%nat] cs = [1%nat; 0%nat]
  /\ global_total (global (shared_state st)) = 4
  /\ global_count (global (shared_state st))
     = global_total (global (shared_state st)).
Proof.
  intros cs st. split; [reflexivity|]. split; [reflexivity|].
  pose proof (aggregate_counters session_clk0 2 shared_static cs) as H.
  cbv zeta in H. apply H.
  - unfold cs. cbn [disciplined In]. repeat split; auto.
    intros [H0|[]]. discriminate H0.
  - intros t [<-|[<-|[]]]; vm_compute; reflexivity.
Defined.

(* ================================================================== *)
(** ** What a publish leaves *)

(** X9.  When [prgi_update__] publishes, the global count is the count it
    received plus the thread's delta, and from that merged count it
    recomputes progress and mean rate; it records the time of the
    publish, the merged count as the count published and the terminal
    width read, zeroes the pending expandable items, erases the lines
    printed before, and keeps the mutex exactly when
    [prgi.lock_on_update] is set; the instantaneous rate is recomputed
    only when the time gate is met, and is kept otherwise.  The
    configuration and the global total are left alone. *)
Theorem prgi_update___snapshot clk tw th w :
  fst (fst (prgi_update__ clk tw th w)) = true ->
  0 <= global_printed_lines (global w) <= INT_MAX ->
  let w' := snd (prgi_update__ clk tw th w) in
  let thread_delta := wrap_long (thread_count th - thread_last_count th) in
  let now := timef (global_start (global w)) clk in
  let global_dt := f32_sub now (global_last_time (global w)) in
  let count := wrap_long (global_count (global w) + thread_delta) in
  global_count (global w') = count
  /\ prgi_progress (prgi w')
     = f32_div (float_of_Z count) (float_of_Z (global_total (global w)))
  /\ prgi_mean_rate (prgi w') = f32_div (float_of_Z count) now
  /\ prgi_elapsed (prgi w') = now
  /\ prgi_width (prgi w') = tw
  /\ prgi_rate (prgi w')
     = (if ready (prgi_update_interval (prgi w)) global_dt
        then f32_div
               (float_of_Z (wrap_long (count - global_last_count (global w))))
               global_dt
        else prgi_rate (prgi w))
  /\ prgi_remaining (prgi w')
     = f32_div (float_of_Z (wrap_long (global_total (global w) - count)))
         (prgi_rate (prgi w'))
  /\ global_last_count (global w') = count
  /\ global_last_time (global w') = now
  /\ global_expand_count (global w') = 0
  /\ global_printed_lines (global w') = 0
  /\ global_lock (global w') = prgi_lock_on_update (prgi w)
  /\ global_total (global w') = global_total (global w)
  /\ prgi_output (prgi w') = prgi_output (prgi w)
  /\ prgi_update_interval (prgi w') = prgi_update_interval (prgi w)
  /\ prgi_lock_on_update (prgi w') = prgi_lock_on_update (prgi w).
Proof.
  intros Hpub Hn w' thread_delta now global_dt count.
  destruct (prgi_update___published clk tw th w Hpub)
    as (Hp & Hgc & Hglc & Hglt & Hec & Hlk & Htot & Hpl).
  fold w' in Hp, Hgc, Hglc, Hglt, Hec, Hlk, Htot, Hpl.
  fold thread_delta in Hp, Hgc, Hglc. fold now in Hp, Hglt.
  fold count in Hp, Hgc, Hglc. fold global_dt in Hp.
  rewrite Hp.
  cbn [prgi_progress prgi_mean_rate prgi_elapsed prgi_width prgi_rate
       prgi_remaining prgi_output prgi_update_interval prgi_lock_on_update].
  repeat split; try assumption. apply Hpl, Hn.
Qed.

Lemma prgi_update___snapshot_witness :
  let w := puts_all ["old line"] (snd session_A1) in
  let r := prgi_update__ session_clk2 80 (with_count 10 (snd (fst session_A1)))
             w in
  fst (fst r) = true
  /\ global_printed_lines (global w) = 1
  /\ global_count (global w) = 1
  /\ global_count (global (snd r)) = 10
  /\ global_printed_lines (global (snd r)) = 0
  /\ global_lock (global (snd r)) = false
  /\ prgi_rate (prgi (snd r)) = prgi_rate (prgi w).
Proof.
  intros w r. split; [vm_compute; reflexivity|].
  split; [vm_compute; reflexivity|].
  split; [vm_compute; reflexivity|].
  pose proof (prgi_update___snapshot session_clk2 80
                (with_count 10 (snd (fst session_A1))) w) as H.
  cbv zeta in H. fold r in H.
  destruct H as (Hc & _ & _ & _ & _ & Hrate & _ & _ & _ & _ & Hl & Hk & _);
    [vm_compute; reflexivity | vm_compute; split; discriminate |].
  split; [rewrite Hc; vm_compute; reflexivity|].
  split; [exact Hl|]. split; [rewrite Hk; reflexivity|].
  rewrite Hrate. reflexivity.
Defined.

(* ================================================================== *)
(** ** The throbber *)

Lemma deref_skipn_no_nul s : forall k,
  no_nul s = true -> (k < String.length s)%nat ->
  Ascii.eqb (deref (skipn k s)) NUL = false.
Proof.
  induction s as [|c s IH]; intros k Hnn Hk; [simpl in Hk; lia|].
  destruct k as [|k]; cbn [skipn deref].
  - exact (no_nul_deref _ _ Hnn).
  - apply IH; [exact (no_nul_next _ _ Hnn) | simpl in Hk; lia].
Qed.

Lemma skipn_all s : skipn (String.length s) s = EmptyString.
Proof. induction s as [|c s IH]; [reflexivity|exact IH]. Qed.

Lemma prgi_throbber_step anim i w :
  no_nul anim = true -> 0 < strlen anim < INT_MAX ->
  global_count (global w) <> global_total (global w) ->
  0 <= i <= strlen anim ->
  prgi_throbber anim i w
  = (Some (deref (skipn (Z.to_nat (i mod strlen anim)) anim)),
     i mod strlen anim + 1).
Proof.
  intros Hnn Hlen Hc Hi. unfold prgi_throbber, char_at.
  destruct (Z.eqb_spec (global_count (global w)) (global_total (global w)));
    [contradiction|].
  destruct (Z.leb_spec 0 i); [|lia].
  destruct (Z.leb_spec i (strlen anim)); [|lia]. cbn [andb].
  destruct (Z.eq_dec i (strlen anim)) as [->|Hne].
  - unfold strlen at 1. rewrite Nat2Z.id, skipn_all. cbn [deref].
    rewrite Z_mod_same_full. reflexivity.
  - rewrite Z.mod_small by lia.
    rewrite deref_skipn_no_nul; [|assumption|unfold strlen in *; lia].
    rewrite wrap_int_id; [reflexivity|].
    unfold in_int, INT_MIN, INT_MAX in *. lia.
Qed.

Lemma throbber_frames_nth anim w n : forall i k,
  no_nul anim = true -> 0 < strlen anim < INT_MAX ->
  global_count (global w) <> global_total (global w) ->
  0 <= i <= strlen anim -> (k < n)%nat ->
  nth_error (throbber_frames anim w n i) k
  = Some (Some (deref (skipn (Z.to_nat ((i + Z.of_nat k) mod strlen anim))
                         anim))).
Proof.
  induction n as [|n IH]; intros i k Hnn Hlen Hc Hi Hk; [lia|].
  cbn [throbber_frames]. rewrite prgi_throbber_step by assumption.
  destruct k as [|k]; cbn [nth_error].
  - rewrite Z.add_0_r. reflexivity.
  - pose proof (Z.mod_pos_bound i (strlen anim) ltac:(lia)).
    rewrite IH; try assumption; try lia.
    replace ((i mod strlen anim + 1 + Z.of_nat k) mod strlen anim)
      with ((i + Z.of_nat (S k)) mod strlen anim); [reflexivity|].
    rewrite Nat2Z.inj_succ.
    replace (i mod strlen anim + 1 + Z.of_nat k)
      with (i mod strlen anim + (1 + Z.of_nat k)) by lia.
    rewrite Zplus_mod_idemp_l. f_equal. lia.
Qed.

(** X10.  Called again and again with the same non-empty animation string
    while the work is not complete, [prgi_throbber] returns its characters
    in turn, starting again from the first after the last: call number [k]
    (from 0) returns [anim[k % strlen(anim)]].  Once the global count
    equals the global total it returns a space and its counter stays. *)
Theorem prgi_throbber_cycles anim w n k i :
  no_nul anim = true -> 0 < strlen anim < INT_MAX -> (k < n)%nat ->
  (global_count (global w) <> global_total (global w) ->
   nth_error (throbber_frames anim w n 0) k
   = Some (Some (deref (skipn (Z.to_nat (Z.of_nat k mod strlen anim)) anim))))
  /\ (global_count (global w) = global_total (global w) ->
      prgi_throbber anim i w = (Some " "%char, i)).
Proof.
  intros Hnn Hlen Hk. split.
  - intros Hc. rewrite throbber_frames_nth; try assumption; [|lia].
    reflexivity.
  - intros Hc. unfold prgi_throbber. rewrite Hc, Z.eqb_refl. reflexivity.
Qed.

Lemma prgi_throbber_cycles_witness :
  throbber_frames "|/-" (snd session_A1) 7 0
  = [Some "|"; Some "/"; Some "-"; Some "|"; Some "/"; Some "-"; Some "|"]%char
  /\ nth_error (throbber_frames "|/-" (snd session_A1) 7 0) 5
     = Some (Some "-"%char).
Proof.
  split; [reflexivity|].
  apply (prgi_throbber_cycles "|/-" (snd session_A1) 7 5 0).
  - reflexivity.
  - vm_compute. split; reflexivity.
  - lia.
  - vm_compute. discriminate.
Defined.

(* ================================================================== *)
(** ** Bars that take the room left on the line *)

Lemma prefix_ge k : forall s, (String.length s <= k)%nat -> prefix k s = s.
Proof.
  induction k as [|k IH]; intros [|c s] H; simpl in *; try reflexivity;
    [lia|]. rewrite IH by lia. reflexivity.
Qed.

Lemma sprn_fits size s : strlen s < size -> sprn size s = s.
Proof.
  unfold sprn, strlen. intros H. apply prefix_ge. lia.
Qed.

Lemma has_esc_app a b : has_esc (a ++ b) = has_esc a || has_esc b.
Proof.
  induction a as [|c a IH]; simpl; [reflexivity|].
  rewrite IH, orb_assoc. reflexivity.
Qed.

Lemma has_esc_repeat_char c n : c <> ESC -> has_esc (repeat_char c n) = false.
Proof.
  intros Hc. induction n as [|n IH]; simpl; [reflexivity|].
  destruct (Ascii.eqb_spec c ESC); [contradiction|]. exact IH.
Qed.

Lemma no_nul_repeat_char c n : c <> NUL -> no_nul (repeat_char c n) = true.
Proof.
  intros Hc. induction n as [|n IH]; simpl; [reflexivity|].
  destruct (Ascii.eqb_spec c NUL); [contradiction|]. exact IH.
Qed.

Lemma c_str_no_nul s : no_nul s = true -> c_str s = s.
Proof.
  induction s as [|c s IH]; intros H; [reflexivity|].
  cbn [c_str]. rewrite (no_nul_deref _ _ H), IH; [reflexivity|].
  exact (no_nul_next _ _ H).
Qed.

Lemma plain_bar_facts f0 f1 n len :
  f0 <> NUL -> f1 <> NUL -> f0 <> ESC -> f1 <> ESC -> 0 <= n <= len ->
  no_nul (plain_bar f0 f1 n len) = true
  /\ has_esc (plain_bar f0 f1 n len) = false
  /\ strlen (plain_bar f0 f1 n len) = len.
Proof.
  intros H0 H1 E0 E1 Hn. unfold plain_bar, strlen.
  rewrite no_nul_app, has_esc_app, length_append, !length_repeat_char.
  rewrite !no_nul_repeat_char, !has_esc_repeat_char by assumption.
  repeat split. lia.
Qed.

(** The bar without text, in two characters. *)
Lemma bar_fill_plain f0 f1 e n len :
  f0 <> NUL -> f1 <> NUL -> 0 <= n <= len -> 0 < len <= MAXBARLEN ->
  bar_fill (mkBar f0 f1 EmptyString e) n len = Some (plain_bar f0 f1 n len).
Proof.
  intros H0 H1 Hn Hlen. unfold bar_fill.
  cbn [bar_fill0 bar_fill1 bar_txt].
  destruct (Z.leb_spec 0 n); [|lia]. destruct (Z.leb_spec n len); [|lia].
  destruct (Z.leb_spec len MAXBARLEN); [|lia]. cbn [andb]. f_equal.
  fold (plain_bar f0 f1 n len).
  assert (Hnn : no_nul (plain_bar f0 f1 n len) = true).
  { unfold plain_bar. rewrite no_nul_app, !no_nul_repeat_char by assumption.
    reflexivity. }
  rewrite c_str_no_nul by assumption.
  apply overwrite_centered_empty. intros Hempty.
  apply (f_equal String.length) in Hempty. unfold plain_bar in Hempty.
  rewrite length_append, !length_repeat_char in Hempty. simpl in Hempty. lia.
Qed.

Lemma bar_len_id len : 10 <= len <= MAXBARLEN -> bar_len len = len.
Proof.
  unfold bar_len. intros H.
  destruct (Z.ltb_spec len 10); [lia|].
  destruct (Z.ltb_spec MAXBARLEN len); lia.
Qed.

Lemma esc_strlen_plain_app pre mid post :
  no_nul pre = true -> no_nul mid = true -> no_nul post = true ->
  has_esc pre = false -> has_esc mid = false ->
  esc_strlen (pre ++ mid ++ post)
  = strlen pre + strlen mid + esc_strlen post.
Proof.
  intros N1 N2 N3 E1 E2.
  rewrite !esc_strlen_dfa
    by (rewrite ?no_nul_app, ?N1, ?N2, ?N3; reflexivity).
  destruct (dfa_plain pre E1) as [C1 S1].
  destruct (dfa_plain mid E2) as [C2 S2].
  rewrite !dfa_strlen_app, C1, S1, C2, S2. lia.
Qed.

(** X11.  A line made of a text without escape sequences, a bar of
    automatic length in two characters and a further text: [prgi_bar(0,
    fill)] returns the empty string and registers the bar, and
    [prgi_printf] then gives the bar the room the texts leave within the
    rendering width (when that is between 10 and [PRGI_MAXBARLEN]), so
    that the line written holds exactly as many printable characters as
    the rendering width, untruncated. *)
Theorem prgi_printf_expand pre post f0 f1 w :
  valid_terminal w = true ->
  global_expand_count (global w) = 0 ->
  0 <= global_printed_lines (global w) < INT_MAX ->
  no_nul pre = true -> no_nul post = true -> has_esc pre = false ->
  f0 <> NUL -> f1 <> NUL -> f0 <> ESC -> f1 <> ESC ->
  let len := global_width (global w) - (strlen pre + esc_strlen post) in
  let n := bar_filled len (prgi_progress (prgi w)) in
  let line := pre ++ plain_bar f0 f1 n len ++ post in
  10 <= len <= MAXBARLEN ->
  strlen pre + len + strlen post < LINEBUFSIZE ->
  0 <= n ->
  fst (prgi_bar 0 f0 f1 w) = Some EmptyString
  /\ esc_strlen line = global_width (global w)
  /\ exists w2,
       prgi_printf (fun b => pre ++ b ++ post) EmptyString
         (snd (prgi_bar 0 f0 f1 w))
       = Some (plain_bar f0 f1 n len, w2)
       /\ tty w2
          = tty w
            ++ (if global_printed_lines (global w) =? 0 then EmptyString
                else String LF EmptyString)
            ++ line ++ park (prgi_width (prgi w))
       /\ global_expand_count (global w2) = 0
       /\ bar_expand (bar w2) = false
       /\ global_printed_lines (global w2)
          = global_printed_lines (global w) + 1.
Proof.
  intros Hv He Hpl Npre Npost Epre H0 H1 E0 E1 len n line Hlen Hbuf Hn.
  pose proof (bar_filled_le len (prgi_progress (prgi w))) as Hnle.
  fold n in Hnle.
  destruct (plain_bar_facts f0 f1 n len H0 H1 E0 E1 ltac:(lia))
    as (Nbar & Ebar & Lbar).
  assert (Hline : esc_strlen line = global_width (global w)).
  { unfold line. rewrite esc_strlen_plain_app by assumption.
    rewrite Lbar. unfold len. lia. }
  split; [reflexivity|]. split; [exact Hline|].
  destruct w as [p [gs gl gt gc glc glt gw gpl gec] b t].
  cbn [global prgi tty bar global_expand_count global_printed_lines
       global_width prgi_width] in *.
  subst gec.
  set (g1 := mkGlobal gs gl gt gc glc glt gw gpl 1).
  set (w1 := mkShared p g1 (mkBar f0 f1 EmptyString true) t).
  change (snd (prgi_bar 0 f0 f1 _)) with w1.
  assert (Hv1 : valid_terminal w1 = true) by exact Hv.
  unfold prgi_printf. rewrite Hv1. cbn [negb].
  change (global_expand_count (global w1)) with 1.
  change (bar_expand (bar w1)) with true.
  change (global_width (global w1)) with gw.
  cbn [Z.eqb append].
  assert (Hfirst : sprn LINEBUFSIZE (pre ++ post) = pre ++ post).
  { apply sprn_fits. unfold strlen in *. rewrite length_append. lia. }
  rewrite Hfirst.
  assert (Hcount : esc_strlen (pre ++ post) = strlen pre + esc_strlen post).
  { pose proof (esc_strlen_plain_app pre EmptyString post Npre eq_refl
                  Npost Epre eq_refl) as H.
    cbn [append] in H. rewrite H. unfold strlen. simpl. lia. }
  rewrite Hcount. fold len.
  assert (Hwrap : wrap_int len = len).
  { apply wrap_int_id.
    unfold in_int, INT_MIN, INT_MAX, MAXBARLEN, MAXLINELEN in *. lia. }
  rewrite Hwrap.
  destruct (Z.ltb_spec 1 len) as [_|]; [|lia].
  unfold c_div. rewrite Z.quot_1_r.
  unfold bar_doit. destruct (Z.leb_spec len 0) as [|_]; [lia|].
  rewrite bar_len_id by assumption.
  change (bar_fill1 (bar w1)) with f1.
  change (prgi_progress (prgi w1)) with (prgi_progress p).
  change (bar w1) with (mkBar f0 f1 EmptyString true).
  destruct (Ascii.eqb_spec f1 NUL) as [|_]; [contradiction|]. cbn [negb].
  fold n.
  rewrite bar_fill_plain by (assumption || lia).
  fold line.
  assert (Hsecond : sprn LINEBUFSIZE line = line).
  { apply sprn_fits. unfold line, strlen in *.
    rewrite !length_append. lia. }
  rewrite Hsecond.
  set (w1' := set_global (with_expand_count 0)
                (set_bar (with_expand false) w1)).
  exists (prgi_puts line w1'). split; [reflexivity|].
  assert (Hv2 : valid_terminal w1' = true) by exact Hv.
  destruct (prgi_puts_valid line w1' Hv2 Hpl) as (_ & _ & Hl2 & Ht2).
  pose proof (prgi_puts_prgi line w1') as Hp2.
  split.
  { rewrite Ht2.
    change (global_width (global w1')) with gw.
    change (global_printed_lines (global w1')) with gpl.
    unfold puts_line. rewrite Hline, Z.leb_refl. reflexivity. }
  assert (Hframe : global_expand_count (global (prgi_puts line w1')) = 0
                   /\ bar_expand (bar (prgi_puts line w1')) = false).
  { unfold prgi_puts. rewrite Hv2. cbn [negb].
    change (global_printed_lines (global w1')) with gpl.
    destruct (gpl =? 0); split; reflexivity. }
  split; [apply Hframe|]. split; [apply Hframe|]. exact Hl2.
Qed.

Lemma prgi_printf_expand_witness :
  let w := snd session_A1 in
  let line := "10% [" ++ plain_bar "#" "." 7 72 ++ "]" in
  global_width (global w) = 78
  /\ esc_strlen line = 78
  /\ exists w2,
       prgi_printf (fun b => "10% [" ++ b ++ "]") EmptyString
         (snd (prgi_bar 0 "#" "." w))
       = Some (plain_bar "#" "." 7 72, w2)
       /\ tty w2 = line ++ park 80.
Proof.
  intros w line. split; [vm_compute; reflexivity|].
  assert (Hlen : global_width (global w)
                 - (strlen "10% [" + esc_strlen "]") = 72)
    by (vm_compute; reflexivity).
  assert (Hn : bar_filled 72 (prgi_progress (prgi w)) = 7)
    by (vm_compute; reflexivity).
  pose proof (prgi_printf_expand "10% [" "]" "#"%char "."%char w) as H.
  cbv zeta in H. rewrite Hlen, Hn in H.
  destruct H as (_ & Hline & w2 & Hp & Ht & _).
  - vm_compute; reflexivity.
  - vm_compute; reflexivity.
  - vm_compute. split; [discriminate|reflexivity].
  - reflexivity.
  - reflexivity.
  - reflexivity.
  - discriminate.
  - discriminate.
  - discriminate.
  - discriminate.
  - vm_compute. split; discriminate.
  - vm_compute. reflexivity.
  - lia.
  - split; [exact Hline|]. exists w2. split; [exact Hp|].
    rewrite Ht. vm_compute. reflexivity.
Defined.

(* ================================================================== *)
(** ** The label of a bar *)

Lemma length_prefix k : forall s,
  String.length (prefix k s) = Nat.min k (String.length s).
Proof.
  induction k as [|k IH]; intros [|c s]; simpl; try reflexivity.
  rewrite IH. reflexivity.
Qed.

Lemma length_skipn k : forall s,
  String.length (skipn k s) = (String.length s - k)%nat.
Proof.
  induction k as [|k IH]; intros [|c s]; simpl; try reflexivity; try lia.
  apply IH.
Qed.

Lemma no_nul_skipn k : forall s, no_nul s = true -> no_nul (skipn k s) = true.
Proof.
  induction k as [|k IH]; intros [|c s] H; simpl; try assumption.
  apply IH. exact (no_nul_next _ _ H).
Qed.

Lemma has_esc_prefix k : forall s,
  has_esc s = false -> has_esc (prefix k s) = false.
Proof.
  induction k as [|k IH]; intros [|c s] H; simpl; try reflexivity.
  simpl in H. apply orb_false_iff in H. destruct H as [-> H].
  apply IH, H.
Qed.

Lemma has_esc_skipn k : forall s,
  has_esc s = false -> has_esc (skipn k s) = false.
Proof.
  induction k as [|k IH]; intros [|c s] H; simpl; try assumption.
  simpl in H. apply orb_false_iff in H. apply IH, H.
Qed.

(** The label is shorter than the bar: it is written in the middle. *)
Lemma overwrite_centered_shorter dest size src :
  strlen src < strlen dest ->
  let off := Z.to_nat (c_div (strlen dest - strlen src) 2) in
  overwrite_centered dest size src
  = prefix off dest ++ src ++ skipn (off + String.length src) dest
  /\ strlen (overwrite_centered dest size src) = strlen dest
  /\ 0 <= strlen dest - strlen src - 2 * Z.of_nat off <= 1.
Proof.
  intros Hlt off. unfold overwrite_centered.
  destruct (Z.ltb_spec (strlen src) (strlen dest)) as [_|]; [|lia].
  fold off. split; [reflexivity|].
  assert (Hoff : 0 <= strlen dest - strlen src - 2 * Z.of_nat off <= 1).
  { subst off. unfold c_div. 
    pose proof (Z.quot_rem' (strlen dest - strlen src) 2) as Hq.
    pose proof (Z.rem_bound_pos (strlen dest - strlen src) 2
                  ltac:(lia) ltac:(lia)) as Hr.
    pose proof (Z.quot_pos (strlen dest - strlen src) 2
                  ltac:(lia) ltac:(lia)) as Hp.
    rewrite Z2Nat.id by assumption. lia. }
  split; [|exact Hoff].
  unfold strlen in *.
  rewrite !length_append, length_prefix, length_skipn. lia.
Qed.

(** X12.  [overwrite_centered] with a text shorter than the destination
    keeps the length of the destination and puts the text in its middle,
    what is left of the destination on its right being as long as what is
    left on its left, or one byte longer.  With a text that is not
    shorter, the destination becomes the text, cut to [size - 1] bytes. *)
Theorem overwrite_centered_spec dest size src :
  0 < size ->
  let r := overwrite_centered dest size src in
  let off := Z.to_nat (c_div (strlen dest - strlen src) 2) in
  (strlen src < strlen dest ->
   strlen r = strlen dest
   /\ prefix off r = prefix off dest
   /\ prefix (String.length src) (skipn off r) = src
   /\ skipn (off + String.length src) r
      = skipn (off + String.length src) dest
   /\ 0 <= strlen dest - strlen src - 2 * Z.of_nat off <= 1)
  /\ (strlen dest <= strlen src ->
      strlen r <= size - 1
      /\ r = prefix (Z.to_nat (Z.min (strlen src) (size - 1))) src).
Proof.
  intros Hsize r off. split.
  - intros Hlt.
    destruct (overwrite_centered_shorter dest size src Hlt)
      as (Hr & Hlen & Hoff).
    fold r in Hr, Hlen. fold off in Hr, Hoff.
    assert (Hlo : (off + String.length src <= String.length dest)%nat)
      by (unfold strlen in *; lia).
    assert (Hp : String.length (prefix off dest) = off)
      by (rewrite length_prefix; lia).
    split; [exact Hlen|].
    assert (Hskip : forall a b, skipn (String.length a) (a ++ b) = b).
    { intros a b. induction a as [|c a IH]; [destruct b|]; simpl; auto. }
    assert (Hpre : forall a b, prefix (String.length a) (a ++ b) = a)
      by apply prefix_app.
    split.
    { rewrite Hr. rewrite <- Hp at 1. apply Hpre. }
    split.
    { rewrite Hr. rewrite <- Hp at 1. rewrite Hskip. apply Hpre. }
    split; [|exact Hoff].
    rewrite Hr at 1. rewrite <- append_assoc.
    replace (off + String.length src)%nat
      with (String.length (prefix off dest ++ src)) at 1
      by (rewrite length_append, Hp; reflexivity).
    apply Hskip.
  - intros Hge. subst r. unfold overwrite_centered.
    destruct (Z.ltb_spec (strlen src) (strlen dest)) as [|_]; [lia|].
    destruct (Z.leb_spec size (strlen src)).
    + rewrite Z.min_r by lia. split; [|reflexivity].
      unfold strlen in *. rewrite length_prefix. lia.
    + rewrite Z.min_l by lia. split; [|reflexivity].
      unfold strlen in *. rewrite length_prefix. lia.
Qed.

Lemma overwrite_centered_spec_witness :
  overwrite_centered "##########" 266 "50%" = "###50%####"
  /\ strlen (overwrite_centered "##########" 266 "50%") = strlen "##########"
  /\ overwrite_centered "####" 4 "label" = "lab".
Proof.
  split; [reflexivity|].
  pose proof (overwrite_centered_spec "##########" 266 "50%" ltac:(lia))
    as [H1 _].
  pose proof (overwrite_centered_spec "####" 4 "label" ltac:(lia))
    as [_ H2].
  split; [apply H1; vm_compute; reflexivity|].
  destruct H2 as [_ H2]; [vm_compute; discriminate|]. rewrite H2.
  reflexivity.
Defined.

Lemma no_nul_prefix_skipn_label off k dest src :
  no_nul dest = true -> no_nul src = true ->
  has_esc dest = false -> has_esc src = false ->
  no_nul (prefix off dest ++ src ++ skipn k dest) = true
  /\ has_esc (prefix off dest ++ src ++ skipn k dest) = false.
Proof.
  intros N1 N2 E1 E2.
  rewrite !no_nul_app, !has_esc_app.
  rewrite (no_nul_prefix off dest N1), N2, (no_nul_skipn k dest N1).
  rewrite (has_esc_prefix off dest E1), E2, (has_esc_skipn k dest E1).
  split; reflexivity.
Qed.

(** The buffer [bar_fill] leaves, with a label shorter than the bar. *)
Lemma bar_fill_label f0 f1 txt e n len :
  f0 <> NUL -> f0 <> ESC ->
  (f1 <> NUL /\ f1 <> ESC) \/ n = len ->
  no_nul txt = true -> has_esc txt = false ->
  0 <= n <= len -> len <= MAXBARLEN -> strlen txt < len ->
  exists aux,
    bar_fill (mkBar f0 f1 txt e) n len = Some aux
    /\ no_nul aux = true /\ has_esc aux = false /\ strlen aux = len.
Proof.
  intros H0 E0 Hf1 Ntxt Etxt Hn Hlen Htxt. unfold bar_fill.
  cbn [bar_fill0 bar_fill1 bar_txt].
  destruct (Z.leb_spec 0 n); [|lia]. destruct (Z.leb_spec n len); [|lia].
  destruct (Z.leb_spec len MAXBARLEN); [|lia]. cbn [andb].
  set (raw := repeat_char f0 (Z.to_nat n)
              ++ repeat_char f1 (Z.to_nat (len - n))).
  assert (Hraw : no_nul raw = true /\ has_esc raw = false
                 /\ strlen raw = len).
  { subst raw. unfold strlen.
    rewrite no_nul_app, has_esc_app, length_append, !length_repeat_char.
    rewrite (no_nul_repeat_char f0) , (has_esc_repeat_char f0) by assumption.
    destruct Hf1 as [[N1 E1] | ->].
    - rewrite no_nul_repeat_char, has_esc_repeat_char by assumption.
      repeat split. lia.
    - rewrite Z.sub_diag. cbn [Z.to_nat repeat_char no_nul has_esc].
      repeat split. lia. }
  destruct Hraw as (Nraw & Eraw & Lraw).
  rewrite (c_str_no_nul raw Nraw).
  destruct (overwrite_centered_shorter raw BARBUFSIZE txt ltac:(lia))
    as (Hr & Hl & _).
  eexists. split; [reflexivity|]. rewrite Hl. split; [|split; [|exact Lraw]];
    rewrite Hr;
    apply (no_nul_prefix_skipn_label _ _ raw txt Nraw Ntxt Eraw Etxt).
Qed.

(** X13.  A bar with a label shorter than it (and free of escape
    sequences) has as many printable characters as its resolved length, in
    both drawings: with two fill characters it is that many bytes long;
    with one fill character the two reverse-video sequences add 8 bytes
    and nothing is cut off. *)
Theorem prgi_bartxt_length len f0 f1 txt w :
  0 < len -> f0 <> NUL -> f0 <> ESC -> f1 <> ESC ->
  no_nul txt = true -> has_esc txt = false ->
  let L := bar_len len in
  let n := bar_filled L (prgi_progress (prgi w)) in
  0 <= n -> strlen txt < L ->
  exists r,
    fst (prgi_bartxt len f0 f1 txt w) = Some r
    /\ esc_strlen r = L
    /\ strlen r = (if Ascii.eqb f1 NUL then L + 8 else L).
Proof.
  intros Hlen H0 E0 E1 Ntxt Etxt L n Hn Htxt.
  pose proof (bar_len_range len) as HL. fold L in HL.
  pose proof (bar_filled_le L (prgi_progress (prgi w))) as Hnle.
  fold n in Hnle.
  unfold prgi_bartxt, bar_doit.
  destruct (Z.leb_spec len 0) as [|_]; [lia|].
  cbn [set_bar bar prgi bar_fill1]. fold L. fold n.
  assert (Hs : sprn BARBUFSIZE txt = txt).
  { apply sprn_fits. unfold BARBUFSIZE, MAXBARLEN, MAXLINELEN, EXTRASIZE
      in *. lia. }
  rewrite Hs.
  destruct (Ascii.eqb_spec f1 NUL) as [->|N1]; cbn [negb fst].
  - destruct (bar_fill_label f0 NUL txt (bar_expand (bar w)) L L H0 E0
                (or_intror eq_refl) Ntxt Etxt ltac:(lia) ltac:(lia) Htxt)
      as (aux & Haux & Naux & Eaux & Laux).
    rewrite Haux. destruct (Z.leb_spec 0 n) as [_|]; [|lia]. cbn [fst].
    unfold fmt_prec_s. destruct (Z.ltb_spec n 0) as [|_]; [lia|].
    set (P := prefix (Z.to_nat n) aux). set (S := skipn (Z.to_nat n) aux).
    assert (HP : strlen P = n).
    { subst P. unfold strlen in *. rewrite length_prefix. lia. }
    assert (HS : strlen S = L - n).
    { subst S. unfold strlen in *. rewrite length_skipn. lia. }
    assert (NP : no_nul P = true) by apply no_nul_prefix, Naux.
    assert (NS : no_nul S = true) by apply no_nul_skipn, Naux.
    assert (EP : has_esc P = false) by apply has_esc_prefix, Eaux.
    assert (ES : has_esc S = false) by apply has_esc_skipn, Eaux.
    set (r := String ESC "[7m" ++ P ++ String ESC "[0m" ++ S).
    assert (Lr : strlen r = L + 8).
    { subst r. unfold strlen in *. rewrite !length_append.
      cbn [String.length]. lia. }
    assert (Hfit : sprn BARBUFSIZE r = r).
    { apply sprn_fits. unfold BARBUFSIZE, MAXBARLEN, MAXLINELEN, EXTRASIZE
        in *. lia. }
    exists r. split; [rewrite Hfit; reflexivity|]. split; [|exact Lr].
    assert (Nr : no_nul r = true).
    { subst r. rewrite !no_nul_app, NP, NS. reflexivity. }
    rewrite esc_strlen_dfa by assumption. subst r.
    change (String ESC "[7m") with (csi_sequence "7" EmptyString "m").
    change (String ESC "[0m") with (csi_sequence "0" EmptyString "m").
    destruct (dfa_plain P EP) as [CP _].
    destruct (dfa_plain S ES) as [CS _].
    rewrite !dfa_strlen_app, !dfa_strlen_csi, !dfa_state_csi by reflexivity.
    rewrite CP, CS. lia.
  - destruct (bar_fill_label f0 f1 txt (bar_expand (bar w)) n L H0 E0
                (or_introl (conj N1 E1)) Ntxt Etxt ltac:(lia) ltac:(lia)
                Htxt)
      as (aux & Haux & Naux & Eaux & Laux).
    exists aux. split; [exact Haux|]. split; [|exact Laux].
    rewrite esc_strlen_dfa by assumption.
    rewrite (proj1 (dfa_plain aux Eaux)). exact Laux.
Qed.

Lemma prgi_bartxt_length_witness :
  let w := snd session_A1 in
  fst (prgi_bartxt 20 " " NUL "10%" w)
  = Some (String ESC "[7m  " ++ String ESC "[0m      10%         ")
  /\ exists r,
       fst (prgi_bartxt 20 " " NUL "10%" w) = Some r
       /\ esc_strlen r = 20 /\ strlen r = 28.
Proof.
  intros w. split; [vm_compute; reflexivity|].
  apply (prgi_bartxt_length 20 " "%char NUL "10%" w).
  - lia.
  - discriminate.
  - discriminate.
  - discriminate.
  - reflexivity.
  - reflexivity.
  - vm_compute. discriminate.
  - vm_compute. reflexivity.
Defined.

(* ================================================================== *)
(** ** Small integers as [float] *)

Lemma digits2_pos_iter_xO p k :
  Zpos (digits2_pos (Pos.iter xO p k)) = Zpos (digits2_pos p) + Zpos k.
Proof.
  induction k as [|k IH] using Pos.peano_ind.
  - cbn [Pos.iter digits2_pos]. lia.
  - rewrite Pos.iter_succ. cbn [digits2_pos]. lia.
Qed.

Lemma Zpos_iter_xO p k : Zpos (Pos.iter xO p k) = Zpos p * 2 ^ Zpos k.
Proof.
  induction k as [|k IH] using Pos.peano_ind.
  - cbn [Pos.iter]. lia.
  - rewrite Pos.iter_succ, Pos2Z.inj_xO, IH, Pos2Z.inj_succ,
      Z.pow_succ_r by lia.
    lia.
Qed.

(** A mantissa of exactly 24 bits with an exponent in range is left as it
    is by the rounding of binary32. *)
Lemma binary_round_aux_24 s m e :
  Zpos (digits2_pos m) = 24 -> -149 <= e <= 104 ->
  binary_round_aux 24 128 s (Zpos m) e loc_Exact = S754_finite s m e.
Proof.
  intros Hd He. unfold binary_round_aux, shr_fexp, Zdigits2, fexp, emin.
  rewrite Hd.
  replace (Z.max (24 + e - 24) (3 - 128 - 24) - e) with 0 by lia.
  cbn [shr shr_record_of_loc shr_m loc_of_shr_record round_nearest_even].
  rewrite Hd.
  replace (Z.max (24 + e - 24) (3 - 128 - 24) - e) with 0 by lia.
  cbn [shr shr_record_of_loc shr_m].
  destruct (Z.leb_spec e (128 - 24)); [reflexivity|lia].
Qed.

(** The binary32 value of a positive integer of at most 24 bits: the
    integer, shifted to 24 bits. *)
Lemma float_of_Z_small p :
  Zpos (digits2_pos p) <= 24 ->
  exists m e,
    float_of_Z (Zpos p) = S754_finite false m e
    /\ Zpos (digits2_pos m) = 24
    /\ e = Zpos (digits2_pos p) - 24
    /\ Zpos m = Zpos p * 2 ^ (- e).
Proof.
  intros Hd. unfold float_of_Z, binary_normalize, binary_round.
  unfold fexp, emin. rewrite Z.add_0_r.
  replace (Z.max (Zpos (digits2_pos p) - 24) (3 - 128 - 24))
    with (Zpos (digits2_pos p) - 24) by lia.
  unfold shl_align. rewrite Z.sub_0_r.
  destruct (Zpos (digits2_pos p) - 24) as [|q|q] eqn:Hq; [|lia|].
  - exists p, 0. rewrite binary_round_aux_24 by lia.
    split; [reflexivity|]. split; [lia|]. split; [reflexivity|].
    cbn. lia.
  - exists (Pos.iter xO p q), (Zneg q).
    assert (H24 : Zpos (digits2_pos (Pos.iter xO p q)) = 24)
      by (rewrite digits2_pos_iter_xO; lia).
    rewrite binary_round_aux_24 by (assumption || lia).
    split; [reflexivity|]. split; [exact H24|]. split; [reflexivity|].
    apply Zpos_iter_xO.
Qed.

Lemma digits2_pos_succ q :
  2 ^ (Zpos (Pos.succ q) - 1) = 2 * 2 ^ (Zpos q - 1)
  /\ 2 ^ Zpos (Pos.succ q) = 2 * 2 ^ Zpos q.
Proof.
  split.
  - replace (Zpos (Pos.succ q) - 1) with (Z.succ (Zpos q - 1)) by lia.
    apply Z.pow_succ_r. lia.
  - replace (Zpos (Pos.succ q)) with (Z.succ (Zpos q)) by lia.
    apply Z.pow_succ_r. lia.
Qed.

Lemma digits2_pos_bound p :
  2 ^ (Zpos (digits2_pos p) - 1) <= Zpos p < 2 ^ Zpos (digits2_pos p).
Proof.
  induction p as [p IH|p IH|]; cbn [digits2_pos].
  - destruct (digits2_pos_succ (digits2_pos p)) as [-> ->]. lia.
  - destruct (digits2_pos_succ (digits2_pos p)) as [-> ->]. lia.
  - cbn. lia.
Qed.

Lemma digits2_pos_le p n :
  0 <= n -> Zpos p < 2 ^ n -> Zpos (digits2_pos p) <= n.
Proof.
  intros Hn Hp. pose proof (digits2_pos_bound p) as [Hlo _].
  destruct (Z_le_gt_dec (Zpos (digits2_pos p)) n) as [|Hgt]; [assumption|].
  exfalso.
  assert (2 ^ n <= 2 ^ (Zpos (digits2_pos p) - 1))
    by (apply Z.pow_le_mono_r; lia).
  lia.
Qed.

(** [(int)(float)n == n] for [0 <= n < 2^24]. *)
Lemma int_of_float_of_Z n :
  0 <= n < 2 ^ 24 ->
  isfinite (float_of_Z n) = true
  /\ f_lt (float_of_Z n) (float_of_Z 0) = false
  /\ int_of_float (float_of_Z n) = n.
Proof.
  intros Hn. destruct n as [|p|p]; [repeat split| |lia].
  destruct (float_of_Z_small p) as (m & e & Hf & Hd & He & Hm).
  { apply digits2_pos_le; lia. }
  rewrite Hf. split; [reflexivity|]. split; [reflexivity|].
  unfold int_of_float, f_trunc.
  pose proof (digits2_pos_le p 24 ltac:(lia) ltac:(lia)).
  assert (Hshift : (if 0 <=? e then Z.shiftl (Zpos m) e
                    else Z.shiftr (Zpos m) (- e)) = Zpos p).
  { destruct (Z.leb_spec 0 e).
    - assert (E0 : e = 0) by lia. rewrite E0 in Hm |- *.
      rewrite Z.shiftl_0_r, Hm. cbn. lia.
    - rewrite Z.shiftr_div_pow2 by lia. rewrite Hm.
      apply Z.div_mul. apply Z.pow_nonzero; lia. }
  rewrite Hshift.
  unfold INT_MIN, INT_MAX.
  destruct (Z.leb_spec (- 2 ^ 31) (Zpos p)); [|lia].
  destruct (Z.leb_spec (Zpos p) (2 ^ 31 - 1)); [reflexivity|lia].
Qed.

(** The order of small integers is the order of their binary32 values. *)
Lemma float_of_Z_lt a b :
  0 <= a < 2 ^ 24 -> 0 <= b < 2 ^ 24 ->
  f_lt (float_of_Z a) (float_of_Z b) = (a <? b).
Proof.
  intros Ha Hb.
  destruct a as [|p|p]; [| |lia]; (destruct b as [|q|q]; [| |lia]).
  - reflexivity.
  - destruct (float_of_Z_small q) as (m & e & Hf & _);
      [apply digits2_pos_le; lia|]. rewrite Hf. reflexivity.
  - destruct (float_of_Z_small p) as (m & e & Hf & _);
      [apply digits2_pos_le; lia|]. rewrite Hf. reflexivity.
  - destruct (float_of_Z_small p) as (ma & ea & Hfa & Hda & Hea & Hma);
      [apply digits2_pos_le; lia|].
    destruct (float_of_Z_small q) as (mb & eb & Hfb & Hdb & Heb & Hmb);
      [apply digits2_pos_le; lia|].
    rewrite Hfa, Hfb. unfold f_lt, SFltb, SFcompare.
    pose proof (digits2_pos_bound p) as Bp.
    pose proof (digits2_pos_bound q) as Bq.
    pose proof (digits2_pos_le p 24 ltac:(lia) ltac:(lia)) as Lp.
    pose proof (digits2_pos_le q 24 ltac:(lia) ltac:(lia)) as Lq.
    destruct (Z.compare_spec ea eb) as [Heq|Hlt|Hgt].
    + rewrite Pos.compare_cont_spec. cbn [Pos.switch_Eq].
      assert (Hd : Zpos (digits2_pos p) = Zpos (digits2_pos q)) by lia.
      rewrite <- Heq in Hmb.
      assert (Hpow : 0 < 2 ^ (- ea)) by (apply Z.pow_pos_nonneg; lia).
      change (Pos.compare ma mb) with (Z.compare (Zpos ma) (Zpos mb)).
      rewrite Hma, Hmb.
      destruct (Z.compare_spec (Zpos p * 2 ^ (- ea)) (Zpos q * 2 ^ (- ea)))
        as [E|E|E]; destruct (Z.ltb_spec (Zpos p) (Zpos q)); try reflexivity;
        nia.
    + assert (2 ^ Zpos (digits2_pos p) <= 2 ^ (Zpos (digits2_pos q) - 1))
        by (apply Z.pow_le_mono_r; lia).
      destruct (Z.ltb_spec (Zpos p) (Zpos q)); [reflexivity|lia].
    + assert (2 ^ Zpos (digits2_pos q) <= 2 ^ (Zpos (digits2_pos p) - 1))
        by (apply Z.pow_le_mono_r; lia).
      destruct (Z.ltb_spec (Zpos p) (Zpos q)); [lia|reflexivity].
Qed.

(* ================================================================== *)
(** ** Whole seconds *)

(** X14.  For every whole number of seconds below one day, [timehms]
    writes the seconds alone below a minute, minutes and two-digit
    seconds below an hour, hours and two-digit minutes from there on (the
    seconds are then dropped, not rounded). *)
Theorem timehms_whole_seconds size n :
  0 <= n < 86400 -> timehms size (float_of_Z n) = sprn size (hms n).
Proof.
  intros Hn.
  destruct (int_of_float_of_Z n ltac:(lia)) as (Hfin & Hneg & Hint).
  unfold timehms. rewrite Hfin, Hneg. cbn [negb orb].
  unfold f_gt. rewrite float_of_Z_lt by lia.
  destruct (Z.ltb_spec (7 * 24 * 60 * 60) n) as [|_]; [lia|].
  rewrite Hint. unfold hms, divmod, c_div, c_mod.
  destruct (Z.ltb_spec n 60) as [|H60]; [reflexivity|].
  rewrite Z.quot_div_nonneg, Z.rem_mod_nonneg by lia.
  assert (Hq : 0 <= n / 60) by (apply Z.div_pos; lia).
  destruct (Z.ltb_spec (n / 60) 60) as [Hm|Hm];
    destruct (Z.ltb_spec n 3600) as [Hh|Hh].
  - reflexivity.
  - exfalso. assert (3600 / 60 <= n / 60) by (apply Z.div_le_mono; lia).
    change (3600 / 60) with 60 in *. lia.
  - exfalso. assert (n / 60 < 60) by (apply Z.div_lt_upper_bound; lia). lia.
  - rewrite Z.quot_div_nonneg, Z.rem_mod_nonneg by lia.
    rewrite Z.div_div by lia. change (60 * 60) with 3600.
    assert (n / 3600 < 24) by (apply Z.div_lt_upper_bound; lia).
    destruct (Z.ltb_spec (n / 3600) 24); [reflexivity|lia].
Qed.

Lemma timehms_whole_seconds_witness :
  timehms 32 (float_of_Z 5025) = "1h23m" /\ hms 342 = "5m42s".
Proof.
  split; [|reflexivity].
  rewrite (timehms_whole_seconds 32 5025) by lia. reflexivity.
Defined.

(* ================================================================== *)
(** ** Rates, percentages and bars on exact values *)

Lemma forallb_range (P : nat -> bool) N :
  forallb P (seq 0 N) = true -> forall k, (k < N)%nat -> P k = true.
Proof.
  intros H k Hk. rewrite forallb_forall in H. apply H.
  apply in_seq. lia.
Qed.

Lemma sipref_three_digits_check :
  forallb
    (fun i =>
       forallb
         (fun k =>
            String.eqb
              (sipref 32 (double_of_Z (Z.of_nat (S k) * 1000 ^ Z.of_nat i)))
              (digits3 (Z.of_nat (S k))
               ++ nth i si_prefixes EmptyString))
         (seq 0 999))
    (seq 0 7) = true.
Proof. vm_compute. reflexivity. Qed.

(** X15.  A rate of [k * 1000^i], with [k] from 1 to 999 and [i] from 0 to
    6, is written by [sipref] as [k] in three significant digits ("5.00",
    "50.0", "500") followed by the prefix of [1000^i]: none, K, M, G, T, P
    or E. *)
Theorem sipref_three_digits i k :
  0 <= i <= 6 -> 1 <= k <= 999 ->
  sipref 32 (double_of_Z (k * 1000 ^ i))
  = digits3 k ++ nth (Z.to_nat i) si_prefixes EmptyString.
Proof.
  intros Hi Hk.
  pose proof (forallb_range _ _ sipref_three_digits_check (Z.to_nat i)
                ltac:(lia)) as H.
  cbv beta in H.
  pose proof (forallb_range _ _ H (Z.to_nat (k - 1)) ltac:(lia)) as H'.
  cbv beta in H'. apply String.eqb_eq in H'.
  replace (Z.of_nat (S (Z.to_nat (k - 1)))) with k in H' by lia.
  replace (Z.of_nat (Z.to_nat i)) with i in H' by lia.
  exact H'.
Qed.

Lemma sipref_three_digits_witness :
  sipref 32 (double_of_Z (25 * 1000 ^ 2)) = "25.0M".
Proof.
  rewrite (sipref_three_digits 2 25) by lia. reflexivity.
Defined.

Lemma prgi_percent_check :
  forallb
    (fun t =>
       forallb
         (fun c =>
            let total := Z.of_nat (S t) in
            let count := Z.of_nat c in
            negb ((100 * count) mod total =? 0)
            || String.eqb
                 (sprn 5
                    (fmt_f 0
                       (double_of_float
                          (f32_mul (float_of_Z 100)
                             (f32_div (float_of_Z count)
                                (float_of_Z total))))
                     ++ "%"))
                 (fmt_d (100 * count / total) ++ "%"))
         (seq 0 (S (S t))))
    (seq 0 100) = true.
Proof. vm_compute. reflexivity. Qed.

(** X16.  With a total of at most 100 units, whenever the count is a whole
    percentage of the total, [prgi_percent] writes that percentage (the
    progress being the quotient [prgi_update__] computes in [float]). *)
Theorem prgi_percent_exact total count w :
  1 <= total <= 100 -> 0 <= count <= total ->
  (100 * count) mod total = 0 ->
  prgi_progress (prgi w) = f32_div (float_of_Z count) (float_of_Z total) ->
  prgi_percent w = fmt_d (100 * count / total) ++ "%".
Proof.
  intros Ht Hc Hdiv Hp.
  pose proof (forallb_range _ _ prgi_percent_check (Z.to_nat (total - 1))
                ltac:(lia)) as H.
  cbv beta in H.
  pose proof (forallb_range _ _ H (Z.to_nat count) ltac:(lia)) as H'.
  cbv beta zeta in H'.
  replace (Z.of_nat (S (Z.to_nat (total - 1)))) with total in H' by lia.
  replace (Z.of_nat (Z.to_nat count)) with count in H' by lia.
  rewrite Hdiv in H'. cbn [Z.eqb negb orb] in H'.
  apply String.eqb_eq in H'.
  unfold prgi_percent. rewrite Hp. exact H'.
Qed.

Lemma prgi_percent_exact_witness :
  prgi_percent (snd session_A1) = "10%".
Proof.
  rewrite (prgi_percent_exact 10 1 (snd session_A1));
    try lia; try reflexivity.
Defined.

(** X17.  Whatever the length asked for, a bar is drawn entirely filled at
    progress 1 and entirely empty at progress 0. *)
Theorem prgi_bar_full_empty len f0 f1 w :
  0 < len -> f0 <> NUL -> f1 <> NUL ->
  let L := bar_len len in
  (prgi_progress (prgi w) = float_of_Z 1 ->
   fst (prgi_bar len f0 f1 w) = Some (repeat_char f0 (Z.to_nat L)))
  /\ (prgi_progress (prgi w) = float_of_Z 0 ->
      fst (prgi_bar len f0 f1 w) = Some (repeat_char f1 (Z.to_nat L))).
Proof.
  intros Hlen H0 H1 L.
  pose proof (bar_len_range len) as HL. fold L in HL.
  unfold MAXBARLEN, MAXLINELEN in HL.
  pose proof (forallb_range _ _ bar_filled_exact_cases (Z.to_nat (L - 10))
                ltac:(lia)) as H.
  cbv beta zeta in H.
  replace (Z.of_nat (Z.to_nat (L - 10)) + 10) with L in H by lia.
  apply andb_true_iff in H. destruct H as [H _].
  apply andb_true_iff in H. destruct H as [Hfull Hempty].
  apply Z.eqb_eq in Hfull, Hempty.
  assert (Hdo : fst (prgi_bar len f0 f1 w)
                = bar_fill (mkBar f0 f1 EmptyString (bar_expand (bar w)))
                    (bar_filled L (prgi_progress (prgi w))) L).
  { unfold prgi_bar, bar_doit.
    destruct (Z.leb_spec len 0) as [|_]; [lia|].
    cbn [set_bar bar prgi bar_fill1].
    destruct (Ascii.eqb_spec f1 NUL) as [|_]; [contradiction|].
    reflexivity. }
  rewrite Hdo. split; intros Hp; rewrite Hp.
  - rewrite Hfull, bar_fill_plain
      by (assumption || unfold MAXBARLEN, MAXLINELEN; lia).
    unfold plain_bar. rewrite Z.sub_diag. cbn [Z.to_nat repeat_char].
    rewrite append_nil_r. reflexivity.
  - rewrite Hempty, bar_fill_plain
      by (assumption || unfold MAXBARLEN, MAXLINELEN; lia).
    unfold plain_bar. rewrite Z.sub_0_r. reflexivity.
Qed.

Lemma prgi_bar_full_empty_witness :
  let w := set_prgi
             (fun p => mkPrgi true f32_0_2 false 80 (float_of_Z 1)
                         f_zero NAN NAN NAN) shared_static in
  fst (prgi_bar 12 "#" "." w) = Some "############".
Proof.
  intros w.
  destruct (prgi_bar_full_empty 12 "#"%char "."%char w ltac:(lia)
              ltac:(discriminate) ltac:(discriminate)) as [H _].
  rewrite H; [reflexivity | vm_compute; reflexivity].
Defined.

(* ================================================================== *)
(** ** Below the mark *)

(** X18.  As long as its count stays below its mark, a thread's calls of
    [prgi_update] (with increments that are not negative) return false and
    leave everything shared as it is: the mutex is not taken, the global
    count and the snapshot are not touched, nothing is written; only the
    thread's own count moves. *)
Theorem prgi_update_below_mark cs th w :
  Forall (fun c => 0 <= fst (fst c)) cs ->
  in_long (thread_count th) -> in_long (thread_mark th) ->
  thread_count th + sum_of_incs cs < thread_mark th ->
  update_all cs th w
  = (false, with_count (thread_count th + sum_of_incs cs) th, w).
Proof.
  intros Hcs. revert th. induction Hcs as [|[[inc clk] tw] cs Hc Hcs IH];
    intros th Hcount Hmark Hlt.
  - cbn [update_all sum_of_incs fold_right]. rewrite Z.add_0_r.
    destruct th; reflexivity.
  - cbn [fst] in Hc. cbn [update_all].
    change (sum_of_incs ((inc, clk, tw) :: cs)) with (inc + sum_of_incs cs)
      in *.
    assert (Hsum : 0 <= sum_of_incs cs).
    { clear - Hcs. induction Hcs as [|c cs Hc Hcs IH]; [cbn; lia|].
      change (sum_of_incs (c :: cs)) with (fst (fst c) + sum_of_incs cs).
      lia. }
    assert (Hw : wrap_long (thread_count th + inc) = thread_count th + inc).
    { apply wrap_long_id. unfold in_long, LONG_MIN, LONG_MAX in *. lia. }
    unfold prgi_update. rewrite Hw.
    cbn [with_count thread_mark thread_count].
    destruct (Z.leb_spec (thread_mark th) (thread_count th + inc)); [lia|].
    rewrite IH;
      cbn [with_count thread_count thread_mark thread_total
           thread_last_count thread_last_time];
      [| unfold in_long, LONG_MIN, LONG_MAX in *; lia | assumption | lia].
    rewrite Z.add_assoc. reflexivity.
Qed.

Lemma prgi_update_below_mark_witness :
  let th := snd (fst session_A1) in
  let cs := [(1, session_clk2, 80); (3, session_clk2, 80);
             (4, session_clk2, 80)] in
  thread_mark th = 10
  /\ update_all cs th (snd session_A1)
     = (false, with_count 9 th, snd session_A1).
Proof.
  intros th cs. split; [vm_compute; reflexivity|].
  rewrite (prgi_update_below_mark cs th (snd session_A1)).
  - vm_compute. reflexivity.
  - unfold cs. repeat constructor; cbn; lia.
  - vm_compute. split; discriminate.
  - vm_compute. split; discriminate.
  - vm_compute. reflexivity.
Defined.

(* ================================================================== *)
(** ** Truncation *)

Lemma marker_count_ground :
  dfa_strlen Ground (">>>" ++ String ESC "[0m") = 3.
Proof. reflexivity. Qed.

(** X19.  On a rendering width of at least 3, [prgi_puts] writes a line
    that fits as it is, and cuts a longer one after its first [width - 3]
    printable characters (and the escape sequences that follow them), the
    marker and the reset sequence coming next: the line written never holds
    more printable characters than the width, and holds exactly that many
    when the text has no escape sequence. *)
Theorem puts_line_truncates width s :
  no_nul s = true -> 3 <= width ->
  (esc_strlen s <= width -> puts_line width s = s)
  /\ (width < esc_strlen s ->
      exists k,
        puts_line width s = prefix k s ++ ">>>" ++ String ESC "[0m"
        /\ esc_strlen (prefix k s) = width - 3
        /\ esc_strlen (puts_line width s) <= width
        /\ (has_esc s = false -> esc_strlen (puts_line width s) = width)).
Proof.
  intros Hnn Hw. unfold puts_line. split.
  - intros Hfit. destruct (Z.leb_spec (esc_strlen s) width); [reflexivity|lia].
  - intros Hlong. destruct (Z.leb_spec (esc_strlen s) width); [lia|].
    destruct (esc_rawlen_count s (width - 3) Hnn ltac:(lia)) as (Hr & Hcount).
    unfold fmt_prec_s.
    destruct (Z.ltb_spec (esc_rawlen s (width - 3)) 0) as [|_]; [lia|].
    set (p := prefix (Z.to_nat (esc_rawlen s (width - 3))) s) in *.
    assert (Hp : no_nul p = true) by apply no_nul_prefix, Hnn.
    exists (Z.to_nat (esc_rawlen s (width - 3))). fold p.
    split; [reflexivity|]. split; [exact Hcount|].
    rewrite esc_strlen_dfa by (rewrite no_nul_app, Hp; reflexivity).
    rewrite dfa_strlen_app.
    rewrite esc_strlen_dfa in Hcount by assumption.
    split.
    + pose proof (truncation_marker_count (dfa_state Ground p)). lia.
    + intros Hplain.
      assert (Hpp : has_esc p = false) by apply has_esc_prefix, Hplain.
      destruct (dfa_plain p Hpp) as [_ Hst].
      rewrite Hst, marker_count_ground. lia.
Qed.

Lemma puts_line_truncates_witness :
  puts_line 10 "elapsed 12s, remaining 3m05s"
  = "elapsed" ++ ">>>" ++ String ESC "[0m"
  /\ esc_strlen (puts_line 10 "elapsed 12s, remaining 3m05s") = 10.
Proof.
  split; [reflexivity|].
  destruct (puts_line_truncates 10 "elapsed 12s, remaining 3m05s" eq_refl
              ltac:(lia)) as [_ H].
  destruct H as (k & _ & _ & _ & H); [vm_compute; reflexivity|].
  apply H. reflexivity.
Defined.
